(** * MagicLens: the agent route ([src/app/api/agent/route.ts])

    A shallow embedding of the intent resolver of the agent API route:
    the rule-based resolver [mockAgentResponse], the validation tail of
    the model-backed resolver [callOpenAI], and the request handler
    [POST]; then the properties of the three.  Around them, what uses
    the resolver and what it feeds: the chat panel and the studio page
    that call the route, the generation route and the Bria client that
    take its result, and the camera utilities of [lib/utils.ts].

    Modelling conventions.
    - Text is [string]; a message is ASCII text, and the string literals
      of the route are kept byte for byte (UTF-8).  On ASCII text
      [toLowerCase], [trim], [includes], [startsWith] and the regular
      expressions of the route behave as defined below.
    - Camera angles are integer-valued numbers, modelled in [Z]; on such
      values the double arithmetic of the route ([+], [Math.max],
      [Math.min]) is exact.
    - Regular expressions are run by a backtracking matcher with the
      priorities of the ECMAScript semantics (leftmost start, ordered
      alternatives, greedy and lazy repetition, capture groups).  The
      matcher is proved sound and complete for a relational reading of
      the patterns, which the statements about classification use.
    - What the route writes with [console.log] and [console.error] is
      the list of lines that a call yields; the external service is a
      function from the request to a thrown error or a parsed body. *)

From Stdlib Require Import List ZArith Bool Lia Arith Ascii String.
Import ListNotations.

Set Warnings "-register-all".

Open Scope string_scope.

(* ================================================================== *)
(** ** Characters and strings *)

Module Js.

Definition code (c : ascii) : nat := nat_of_ascii c.

Definition in_range (lo hi : nat) (c : ascii) : bool :=
  (lo <=? code c)%nat && (code c <=? hi)%nat.

(** [\w]: ASCII letters, digits and the underscore. *)
Definition is_word_char (c : ascii) : bool :=
  in_range 97 122 c || in_range 65 90 c || in_range 48 57 c
  || (code c =? 95)%nat.

(** [\s] and the characters removed by [trim]: tab, line feed, vertical
    tab, form feed, carriage return, space. *)
Definition is_space (c : ascii) : bool :=
  in_range 9 13 c || (code c =? 32)%nat.

(** Line terminators, which [.] does not match. *)
Definition is_line_terminator (c : ascii) : bool :=
  (code c =? 10)%nat || (code c =? 13)%nat.

Definition lower_char (c : ascii) : ascii :=
  if in_range 65 90 c then ascii_of_nat (code c + 32) else c.

Fixpoint toLowerCase (s : string) : string :=
  match s with
  | EmptyString => EmptyString
  | String c t => String (lower_char c) (toLowerCase t)
  end.

Fixpoint startsWith (s p : string) : bool :=
  match p, s with
  | EmptyString, _ => true
  | String _ _, EmptyString => false
  | String a p', String b s' => Ascii.eqb a b && startsWith s' p'
  end.

(** [s.includes(p)]: [p] occurs in [s] at some position. *)
Fixpoint includes (s p : string) : bool :=
  startsWith s p ||
  match s with
  | EmptyString => false
  | String _ t => includes t p
  end.

Fixpoint trimStart (s : string) : string :=
  match s with
  | EmptyString => EmptyString
  | String c t => if is_space c then trimStart t else s
  end.

Fixpoint trimEnd (s : string) : string :=
  match s with
  | EmptyString => EmptyString
  | String c t =>
      match trimEnd t with
      | EmptyString => if is_space c then EmptyString else String c EmptyString
      | t' => String c t'
      end
  end.

Definition trim (s : string) : string := trimEnd (trimStart s).

(** Truthiness of a string and of an optional (possibly [undefined])
    string. *)
Definition truthy_string (s : string) : bool :=
  match s with EmptyString => false | _ => true end.

Definition truthy (o : option string) : bool :=
  match o with Some s => truthy_string s | None => false end.

End Js.

(* ================================================================== *)
(** ** Regular expressions *)

Module Regex.

Inductive regex : Type :=
| Eps                                  (* the empty pattern *)
| Chr (c : ascii)                      (* a literal character *)
| Space                                (* \s *)
| Dot                                  (* . *)
| WordB                                (* \b *)
| Eos                                  (* $ (no multiline flag) *)
| Seq (a b : regex)
| Alt (a b : regex)                    (* a|b, [a] tried first *)
| Star (greedy : bool) (a : regex)     (* a* and a*? *)
| Cap (i : nat) (a : regex).           (* capture group number [i] *)

(** A position of the matcher: the character before it, the input that is
    left, and the groups captured so far (latest first). *)
Record mstate : Type := MState {
  prev : option ascii;
  rest : list ascii;
  caps : list (nat * list ascii)
}.

Definition advance (c : ascii) (t : list ascii) (st : mstate) : mstate :=
  MState (Some c) t (caps st).

Definition set_cap (i : nat) (v : list ascii) (st : mstate) : mstate :=
  MState (prev st) (rest st) ((i, v) :: caps st).

Definition word_before (st : mstate) : bool :=
  match prev st with Some c => Js.is_word_char c | None => false end.

Definition word_after (st : mstate) : bool :=
  match rest st with c :: _ => Js.is_word_char c | [] => false end.

Definition at_boundary (st : mstate) : bool :=
  xorb (word_before st) (word_after st).

Definition one (p : ascii -> bool) (k : mstate -> option mstate)
  (st : mstate) : option mstate :=
  match rest st with
  | c :: t => if p c then k (advance c t st) else None
  | [] => None
  end.

Definition or_else {A : Type} (x y : option A) : option A :=
  match x with Some _ => x | None => y end.

(** One repetition [a*] (greedy) or [a*?] (lazy): [body] matches [a],
    [k] is what follows.  An iteration has to consume input, as in
    ECMAScript, so the input length bounds the number of iterations. *)
Section Repeat.

Variable greedy : bool.
Variable body : (mstate -> option mstate) -> mstate -> option mstate.
Variable k : mstate -> option mstate.

Fixpoint star_loop (fuel : nat) (st : mstate) {struct fuel}
  : option mstate :=
  match fuel with
  | O => k st
  | S fuel' =>
      let again :=
        body
          (fun st' =>
             if (List.length (rest st') <? List.length (rest st))%nat
             then star_loop fuel' st' else None) st in
      if greedy then or_else again (k st) else or_else (k st) again
  end.

End Repeat.

(** The matcher, in continuation-passing style: [rmatch r k st] matches
    [r] at [st] and hands the position reached to [k]; a failure of [k]
    makes the matcher backtrack into [r]. *)
Fixpoint rmatch (r : regex) (k : mstate -> option mstate) (st : mstate)
  {struct r} : option mstate :=
  match r with
  | Eps => k st
  | Chr c => one (Ascii.eqb c) k st
  | Space => one Js.is_space k st
  | Dot => one (fun c => negb (Js.is_line_terminator c)) k st
  | WordB => if at_boundary st then k st else None
  | Eos => match rest st with [] => k st | _ :: _ => None end
  | Seq a b => rmatch a (rmatch b k) st
  | Alt a b => or_else (rmatch a k st) (rmatch b k st)
  | Star greedy a =>
      star_loop greedy (rmatch a) k (S (List.length (rest st))) st
  | Cap i a =>
      rmatch a
        (fun st' =>
           k (set_cap i
                (firstn (List.length (rest st) - List.length (rest st'))
                   (rest st)) st')) st
  end.

(** The leftmost match: start positions are tried from left to right. *)
Fixpoint search (r : regex) (p : option ascii) (s : list ascii)
  : option mstate :=
  match rmatch r Some (MState p s []) with
  | Some st => Some st
  | None =>
      match s with
      | [] => None
      | c :: t => search r (Some c) t
      end
  end.

(** [re.test(s)]. *)
Definition test (r : regex) (s : string) : bool :=
  match search r None (list_ascii_of_string s) with
  | Some _ => true
  | None => false
  end.

Fixpoint lookup (i : nat) (l : list (nat * list ascii)) : option string :=
  match l with
  | [] => None
  | (j, v) :: l' =>
      if (i =? j)%nat then Some (string_of_list_ascii v) else lookup i l'
  end.

(** [s.match(re)] for a pattern without the global flag: [None] for
    [null], else the function from group numbers to captured texts. *)
Definition exec (r : regex) (s : string) : option (nat -> option string) :=
  match search r None (list_ascii_of_string s) with
  | Some st => Some (fun i => lookup i (caps st))
  | None => None
  end.

(** *** Pattern notation *)

Fixpoint lit (s : string) : regex :=
  match s with
  | EmptyString => Eps
  | String c EmptyString => Chr c
  | String c t => Seq (Chr c) (lit t)
  end.

(** [w1|w2|...|wn] *)
Fixpoint words (l : list string) : regex :=
  match l with
  | [] => Eps
  | [w] => lit w
  | w :: l' => Alt (lit w) (words l')
  end.

Definition plus (greedy : bool) (a : regex) : regex :=
  Seq a (Star greedy a).

Definition opt (a : regex) : regex := Alt a Eps.

Fixpoint seq (l : list regex) : regex :=
  match l with
  | [] => Eps
  | [a] => a
  | a :: l' => Seq a (seq l')
  end.

Definition spaces1 : regex := plus true Space.     (* \s+ *)
Definition spaces0 : regex := Star true Space.     (* \s* *)
Definition some_lazy : regex := plus false Dot.    (* .+? *)

End Regex.

(* ================================================================== *)
(** ** Data model ([src/app/lib/types.ts]) *)

Open Scope Z_scope.

Record CameraParams : Type := mkCamera {
  yaw : Z;      (* horizontal rotation, -180 to 180 *)
  pitch : Z;    (* vertical rotation, -90 to 90 *)
  roll : Z;     (* tilt rotation, -180 to 180 *)
  fov : Z       (* field of view, 10 to 120 *)
}.

(** Optional fields ([?:]) are options: [None] is [undefined]. *)
Record FIBOParams : Type := mkParams {
  camera : CameraParams;
  lighting : string;
  color_palette : option string;
  composition : string;
  edit_mode : option string;
  subject_description : option string;
  realism_level : string;
  output_format : string
}.

Definition DEFAULT_FIBO_PARAMS : FIBOParams :=
  {| camera := {| yaw := 0; pitch := 0; roll := 0; fov := 40 |};
     lighting := "studio_soft";
     color_palette := None;
     composition := "centered";
     edit_mode := None;
     subject_description := None;
     realism_level := "high";
     output_format := "hdr_16bit" |}.

Inductive OperationType : Type :=
| inpaint_remove
| inpaint_replace
| inpaint_add
| style_transfer
| generate_new
| camera_adjust.

(** The string that an operation is at run time. *)
Definition op_name (o : OperationType) : string :=
  match o with
  | inpaint_remove => "inpaint_remove"
  | inpaint_replace => "inpaint_replace"
  | inpaint_add => "inpaint_add"
  | style_transfer => "style_transfer"
  | generate_new => "generate_new"
  | camera_adjust => "camera_adjust"
  end.

Record AgentResponse : Type := mkResponse {
  operation : OperationType;
  needsMask : bool;
  params : FIBOParams;
  prompt : string;
  response : string
}.

(** Field assignments on a params object. *)
Definition set_yaw (v : Z) (p : FIBOParams) : FIBOParams :=
  mkParams (mkCamera v (pitch (camera p)) (roll (camera p)) (fov (camera p)))
    (lighting p) (color_palette p) (composition p) (edit_mode p)
    (subject_description p) (realism_level p) (output_format p).

Definition set_fov (v : Z) (p : FIBOParams) : FIBOParams :=
  mkParams (mkCamera (yaw (camera p)) (pitch (camera p)) (roll (camera p)) v)
    (lighting p) (color_palette p) (composition p) (edit_mode p)
    (subject_description p) (realism_level p) (output_format p).

Definition set_lighting (v : string) (p : FIBOParams) : FIBOParams :=
  mkParams (camera p) v (color_palette p) (composition p) (edit_mode p)
    (subject_description p) (realism_level p) (output_format p).

Definition set_color_palette (v : string) (p : FIBOParams) : FIBOParams :=
  mkParams (camera p) (lighting p) (Some v) (composition p) (edit_mode p)
    (subject_description p) (realism_level p) (output_format p).

Definition set_edit_mode (v : string) (p : FIBOParams) : FIBOParams :=
  mkParams (camera p) (lighting p) (color_palette p) (composition p) (Some v)
    (subject_description p) (realism_level p) (output_format p).

Definition set_subject_description (v : string) (p : FIBOParams)
  : FIBOParams :=
  mkParams (camera p) (lighting p) (color_palette p) (composition p)
    (edit_mode p) (Some v) (realism_level p) (output_format p).

(* ================================================================== *)
(** ** The patterns of [mockAgentResponse] *)

Module Pat.
Import Regex.

Definition removal_verbs : list string :=
  ["remove"; "delete"; "erase"; "get rid of"; "clear"; "eliminate"].
Definition replace_verbs : list string :=
  ["replace"; "change"; "swap"; "turn"; "convert"].
Definition connectors : list string := ["to"; "into"; "with"].
Definition add_verbs : list string :=
  ["add"; "put"; "place"; "insert"; "include"].

(** [\b(w1|...|wn)\b] with capture group [i]. *)
Definition whole_word (i : nat) (l : list string) : regex :=
  seq [WordB; Cap i (words l); WordB].

(** [(?:the\s+)?] *)
Definition opt_the : regex := opt (Seq (lit "the") spaces1).

(** [/\b(remove|delete|erase|get rid of|clear|eliminate)\b/] *)
Definition removal : regex := whole_word 1 removal_verbs.

(** [/(?:remove|delete|erase|get rid of|clear|eliminate)\s+(?:the\s+)?(.+?)(?:\s+from|\s+in|\s*$)/] *)
Definition removal_object : regex :=
  seq [words removal_verbs; spaces1; opt_the; Cap 1 some_lazy;
       Alt (Seq spaces1 (lit "from"))
         (Alt (Seq spaces1 (lit "in")) (Seq spaces0 Eos))].

(** [/\b(replace|change|swap|turn|convert)\b.*\b(to|into|with)\b/] *)
Definition replace : regex :=
  seq [WordB; Cap 1 (words replace_verbs); WordB; Star true Dot;
       WordB; Cap 2 (words connectors); WordB].

(** [/(?:replace|change|swap|turn|convert)\s+(?:the\s+)?(.+?)\s+(?:to|into|with)\s+(.+?)(?:\s*$)/] *)
Definition replace_parts : regex :=
  seq [words replace_verbs; spaces1; opt_the; Cap 1 some_lazy; spaces1;
       words connectors; spaces1; Cap 2 some_lazy; Seq spaces0 Eos].

(** [/\b(add|put|place|insert|include)\b/] *)
Definition add : regex := whole_word 1 add_verbs.

(** [/(?:add|put|place|insert|include)\s+(?:a\s+|some\s+)?(.+?)(?:\s+here|\s+there|\s+in|\s+on|\s*$)/] *)
Definition add_object : regex :=
  seq [words add_verbs; spaces1;
       opt (Alt (Seq (lit "a") spaces1) (Seq (lit "some") spaces1));
       Cap 1 some_lazy;
       Alt (Seq spaces1 (lit "here"))
         (Alt (Seq spaces1 (lit "there"))
            (Alt (Seq spaces1 (lit "in"))
               (Alt (Seq spaces1 (lit "on")) (Seq spaces0 Eos))))].

(** [/\b(zoom|rotate|tilt|angle|pan)\b/] *)
Definition camera_words : regex :=
  whole_word 1 ["zoom"; "rotate"; "tilt"; "angle"; "pan"].

(** [/\b(add|remove|change|style)\b/] *)
Definition not_camera_only : regex :=
  whole_word 1 ["add"; "remove"; "change"; "style"].

(** [/\b(create|generate|imagine|make me a|design)\b/] *)
Definition creation : regex :=
  whole_word 1 ["create"; "generate"; "imagine"; "make me a"; "design"].

End Pat.

(** The capture group [i] of a successful match (groups of these patterns
    always take part in a match; a missing one reads as the text
    "undefined" in a template). *)
Definition group (m : nat -> option string) (i : nat) : string :=
  match m i with Some s => s | None => "undefined" end.

(* ================================================================== *)
(** ** The rule-based resolver: [mockAgentResponse] *)

Definition dquote : string := String "034"%char EmptyString.
Definition newline : string := String "010"%char EmptyString.

(** The variables of [mockAgentResponse] that its branches assign. *)
Record Locals : Type := mkLocals {
  l_operation : OperationType;
  l_prompt : string;
  l_response : string;
  updatedParams : FIBOParams
}.

(** The text that [${updatedParams.subject_description}] is in a
    template. *)
Definition subject_text (p : FIBOParams) : string :=
  match subject_description p with Some s => s | None => "undefined" end.

(** Lines 194-238: operation type from keywords, first match wins. *)
Definition classify (userMessage lower : string) (hasMask : bool)
  (l : Locals) : Locals :=
  if Regex.test Pat.removal lower then
    let subject :=
      match Regex.exec Pat.removal_object lower with
      | Some m => Js.trim (group m 1)
      | None => userMessage
      end in
    let p := set_subject_description subject (updatedParams l) in
    mkLocals inpaint_remove
      ("Remove " ++ subject_text p
         ++ " from the marked area and fill with natural background")
      ("🗑️ I'll remove " ++ dquote ++ subject_text p ++ dquote
         ++ " from the marked area. Click Generate!")
      p
  else if Regex.test Pat.replace lower then
    let response := "🔄 I'll replace that for you. Click Generate!" in
    match Regex.exec Pat.replace_parts lower with
    | Some m =>
        mkLocals inpaint_replace
          ("Replace " ++ group m 1 ++ " with " ++ group m 2
             ++ " in the marked area, blend naturally")
          response
          (set_subject_description
             ("Replace " ++ group m 1 ++ " with " ++ group m 2)
             (updatedParams l))
    | None => mkLocals inpaint_replace (l_prompt l) response (updatedParams l)
    end
  else if Regex.test Pat.add lower then
    let subject :=
      match Regex.exec Pat.add_object lower with
      | Some m => Js.trim (group m 1)
      | None => userMessage
      end in
    let p := set_subject_description subject (updatedParams l) in
    mkLocals (if hasMask then inpaint_add else style_transfer)
      ("Add " ++ subject_text p ++ " in the marked area, blend seamlessly")
      ("✨ I'll add " ++ dquote ++ subject_text p ++ dquote
         ++ " to the marked area. Click Generate!")
      p
  else if Regex.test Pat.camera_words lower
          && negb (Regex.test Pat.not_camera_only lower) then
    mkLocals camera_adjust (l_prompt l)
      "📷 Camera adjusted! Click Generate to see the new angle."
      (updatedParams l)
  else if Regex.test Pat.creation lower && negb hasMask then
    mkLocals generate_new userMessage
      "🎨 I'll generate that for you. Click Generate!"
      (set_subject_description userMessage (updatedParams l))
  else
    mkLocals style_transfer userMessage
      "🎨 I'll apply those changes. Click Generate!"
      (set_subject_description userMessage (updatedParams l)).

(** Lines 240-254: camera instructions. *)
Definition turn_left (lower : string) (p : FIBOParams) : FIBOParams :=
  if Js.includes lower "left" && negb (Js.includes lower "tilt") then
    let amount :=
      if Js.includes lower "slight" then -15
      else if Js.includes lower "hard" then -45 else -30 in
    set_yaw (Z.max (-180) (yaw (camera p) + amount)) p
  else p.

Definition turn_right (lower : string) (p : FIBOParams) : FIBOParams :=
  if Js.includes lower "right" && negb (Js.includes lower "copyright")
     && negb (Js.includes lower "tilt") then
    let amount :=
      if Js.includes lower "slight" then 15
      else if Js.includes lower "hard" then 45 else 30 in
    set_yaw (Z.min 180 (yaw (camera p) + amount)) p
  else p.

Definition zoom_in (lower : string) (p : FIBOParams) : FIBOParams :=
  if Js.includes lower "zoom in" || Js.includes lower "closer" then
    set_fov (Z.max 10 (fov (camera p) - 15)) p
  else p.

Definition zoom_out (lower : string) (p : FIBOParams) : FIBOParams :=
  if Js.includes lower "zoom out" || Js.includes lower "wider" then
    set_fov (Z.min 120 (fov (camera p) + 15)) p
  else p.

Definition parse_camera (lower : string) (p : FIBOParams) : FIBOParams :=
  zoom_out lower (zoom_in lower (turn_right lower (turn_left lower p))).

(** Lines 256-260: lighting instructions, one [if] after the other. *)
Definition parse_lighting (lower : string) (p : FIBOParams) : FIBOParams :=
  let p := if Js.includes lower "dramatic"
           then set_lighting "dramatic_side" p else p in
  let p := if Js.includes lower "soft"
           then set_lighting "studio_soft" p else p in
  let p := if Js.includes lower "natural" || Js.includes lower "daylight"
           then set_lighting "natural_daylight" p else p in
  let p := if Js.includes lower "neon" then set_lighting "neon" p else p in
  p.

(** Lines 262-265: color palette. *)
Definition parse_color (lower : string) (p : FIBOParams) : FIBOParams :=
  let p := if Js.includes lower "warm"
           then set_color_palette "warm" p else p in
  let p := if Js.includes lower "cool" || Js.includes lower "cold"
           then set_color_palette "cool" p else p in
  let p := if Js.includes lower "vibrant"
           then set_color_palette "vibrant" p else p in
  p.

(** [['inpaint_remove', 'inpaint_replace', 'inpaint_add'].includes(operation)] *)
Definition array_includes (l : list string) (x : string) : bool :=
  existsb (String.eqb x) l.

Definition mask_operations : list string :=
  ["inpaint_remove"; "inpaint_replace"; "inpaint_add"].

(** Lines 187-192: the variables before the branches; [updatedParams]
    starts as a copy of [currentParams]. *)
Definition initial (userMessage : string) (currentParams : FIBOParams)
  : Locals :=
  {| l_operation := style_transfer;
     l_prompt := userMessage;
     l_response := "✨ Got it! Click Generate to apply changes.";
     updatedParams := currentParams |}.

Definition mockAgentResponse (userMessage : string)
  (currentParams : FIBOParams) (hasMask : bool) : AgentResponse :=
  let lower := Js.toLowerCase userMessage in
  let l := classify userMessage lower hasMask
             (initial userMessage currentParams) in
  let operation := l_operation l in
  let p := parse_camera lower (updatedParams l) in
  let p := parse_lighting lower p in
  let p := parse_color lower p in
  (* Set edit_mode based on operation *)
  let p :=
    set_edit_mode
      (if Js.startsWith (op_name operation) "inpaint" then "mask" else "full")
      p in
  (* Check if mask is needed but not provided *)
  let needsMask :=
    array_includes mask_operations (op_name operation) && negb hasMask in
  let response :=
    if needsMask then
      let objectName :=
        if Js.truthy (subject_description p) then subject_text p
        else "the area" in
      "🎯 Please draw on " ++ objectName ++ " first!" ++ newline ++ newline
        ++ "Use the brush tool to mark the area, then click " ++ dquote
        ++ "Generate" ++ dquote ++ "."
    else l_response l in
  {| operation := operation;
     needsMask := needsMask;
     params := p;
     prompt := l_prompt l;
     response := response |}.

(* ================================================================== *)
(** ** The model-backed resolver: [callOpenAI] *)

(** Values that [JSON.parse] returns. *)
Inductive json : Type :=
| JNull
| JBool (b : bool)
| JNum (n : Z)
| JStr (s : string)
| JArr (items : list json)
| JObj (fields : list (string * json)).

(** A call returns a value or throws. *)
Inductive outcome (A : Type) : Type :=
| Returned (a : A)
| Thrown (message : string).
Arguments Returned {A} a.
Arguments Thrown {A} message.

Fixpoint assoc (k : string) (l : list (string * json)) : option json :=
  match l with
  | [] => None
  | (k', v) :: l' => if String.eqb k k' then Some v else assoc k l'
  end.

(** [v.k] for one of the keys read by the route, on a value other than
    [null]: an own property of an object, [undefined] ([None]) on
    anything else. *)
Definition get (v : json) (k : string) : option json :=
  match v with
  | JObj fields => assoc k fields
  | _ => None
  end.

Definition truthy_json (v : json) : bool :=
  match v with
  | JNull => false
  | JBool b => b
  | JNum n => negb (n =? 0)
  | JStr s => Js.truthy_string s
  | JArr _ | JObj _ => true
  end.

(** [x || d] *)
Definition js_or (x : option json) (d : json) : json :=
  match x with
  | Some v => if truthy_json v then v else d
  | None => d
  end.

Definition validOperations : list string :=
  ["inpaint_remove"; "inpaint_replace"; "inpaint_add"; "style_transfer";
   "generate_new"; "camera_adjust"].

(** [validOperations.includes(x)]: only a string can be equal to an
    element of an array of strings. *)
Definition includes_value (l : list string) (x : option json) : bool :=
  match x with
  | Some (JStr s) => array_includes l s
  | _ => false
  end.

(** What [callOpenAI] returns: the fields are whatever the model sent. *)
Record RawResponse : Type := mkRaw {
  r_operation : json;
  r_needsMask : json;
  r_params : json;
  r_prompt : json;
  r_response : json
}.

(** Lines 164-166: [validOperations.includes(x) ? x : (hasMask ?
    'inpaint_replace' : 'style_transfer')]. *)
Definition checked_operation (x : option json) (hasMask : bool) : json :=
  match x with
  | Some v =>
      if includes_value validOperations x then v
      else JStr (if hasMask then "inpaint_replace" else "style_transfer")
  | None => JStr (if hasMask then "inpaint_replace" else "style_transfer")
  end.

(** Lines 158-174 of [callOpenAI]: from the parsed body to the result.
    Reading a property of [null] throws. *)
Definition validate (parsed : json) (hasMask : bool) : outcome RawResponse :=
  match parsed with
  | JNull => Thrown "Cannot read properties of null (reading 'operation')"
  | _ =>
      Returned
        {| r_operation := checked_operation (get parsed "operation") hasMask;
           r_needsMask := js_or (get parsed "needsMask") (JBool false);
           r_params := js_or (get parsed "params") parsed;
           r_prompt := js_or (get parsed "prompt") (JStr EmptyString);
           r_response :=
             js_or (get parsed "response")
               (JStr "✨ Got it! Click Generate to apply changes.") |}
  end.

(* ================================================================== *)
(** ** The request handler: [POST] *)

(** The request body; [userMessage] may be missing. *)
Record AgentRequest : Type := mkRequest {
  userMessage : option string;
  currentParams : FIBOParams;
  hasMask : bool
}.

Inductive Body : Type :=
| ErrorBody (error : string)        (* { error: ... } *)
| MockBody (r : AgentResponse)
| ModelBody (r : RawResponse).

Record HttpResponse : Type := mkHttp {
  status : Z;
  body : Body
}.

Section Handler.

(** The external service as [callOpenAI] sees it up to line 156: for the
    parameters, mask flag and instruction put into the user prompt, the
    fetch, the status check and the two parsing steps either throw or
    yield the parsed content. *)
Variable service : FIBOParams -> bool -> string -> outcome json.

(** A call yields what was written to the console and its outcome. *)
Definition callOpenAI (currentParams : FIBOParams) (hasMask : bool)
  (userMessage : string) : list string * outcome RawResponse :=
  match service currentParams hasMask userMessage with
  | Thrown e => (["Calling Azure OpenAI:"], Thrown e)
  | Returned parsed =>
      match validate parsed hasMask with
      | Thrown e => (["Calling Azure OpenAI:"], Thrown e)
      | Returned r =>
          (["Calling Azure OpenAI:"; "Agent detected operation:";
            "Agent needsMask:"; "Agent prompt:"], Returned r)
      end
  end.

(** [request_json] is the outcome of [request.json()], [openaiKey] the
    value of the environment variable. *)
Definition POST (request_json : outcome AgentRequest)
  (openaiKey : option string) : list string * HttpResponse :=
  let failed :=
    mkHttp 500 (ErrorBody "Failed to process instruction") in
  match request_json with
  | Thrown _ => (["Agent API error:"], failed)
  | Returned req =>
      match userMessage req with
      | None | Some EmptyString =>        (* if (!userMessage) *)
          ([], mkHttp 400 (ErrorBody "User message is required"))
      | Some message =>
          if Js.truthy openaiKey then
            match callOpenAI (currentParams req) (hasMask req) message with
            | (log, Returned r) => (log, mkHttp 200 (ModelBody r))
            | (log, Thrown _) => ((log ++ ["Agent API error:"])%list, failed)
            end
          else
            (["No OPENAI_API_KEY - using mock agent response";
              "Mock agent detected operation:"],
             mkHttp 200
               (MockBody
                  (mockAgentResponse message (currentParams req)
                     (hasMask req))))
      end
  end.

End Handler.

(* ================================================================== *)
(** ** More of the JavaScript library *)

Module JsLib.

(** [s.split(sep)] for a one-character separator: never empty. *)
Fixpoint split (sep : ascii) (s : string) : list string :=
  match s with
  | EmptyString => [EmptyString]
  | String c t =>
      if Ascii.eqb c sep then EmptyString :: split sep t
      else
        match split sep t with
        | h :: r => String c h :: r
        | [] => [String c EmptyString]
        end
  end.

(** [parts.join(sep)] *)
Definition join (sep : string) (parts : list string) : string :=
  String.concat sep parts.

(** [s.replace(a, b)] for one-character strings [a] and [b]: the first
    occurrence only. *)
Fixpoint replace (a b : ascii) (s : string) : string :=
  match s with
  | EmptyString => EmptyString
  | String c t => if Ascii.eqb c a then String b t else String c (replace a b t)
  end.

(** [x || d] on texts that may be [undefined] or [null]. *)
Definition or_text (x : option string) (d : string) : string :=
  match x with
  | Some s => if Js.truthy_string s then s else d
  | None => d
  end.

(** [x || y] where both may be [null]. *)
Definition or_else_text (x y : option string) : option string :=
  if Js.truthy x then x else y.

(** [table[k]] for an object literal used as a table, at a key that is
    no member of [Object.prototype]. *)
Fixpoint table_get (table : list (string * string)) (k : string)
  : option string :=
  match table with
  | [] => None
  | (k', v) :: rest => if String.eqb k k' then Some v else table_get rest k
  end.

(** [parts.push(x)] under a condition. *)
Definition push_if (b : bool) (x : string) (parts : list string)
  : list string :=
  if b then (parts ++ [x])%list else parts.

End JsLib.

(* ================================================================== *)
(** ** Utilities ([src/app/lib/utils.ts]) *)

Module Utils.

(** [clamp]: [Math.max(min, Math.min(max, value))]. *)
Definition clamp (value min max : Z) : Z := Z.max min (Z.min max value).

(** [Partial<{ yaw; pitch; roll }>] *)
Record Direction : Type := mkDirection {
  yaw : option Z;
  pitch : option Z;
  roll : option Z
}.

Definition parseCameraDirection (direction : string) : Direction :=
  let lower := Js.toLowerCase direction in
  {| yaw :=
       if Js.includes lower "left" then
         Some (if Js.includes lower "slight" then -15
               else if Js.includes lower "hard" then -45 else -30)
       else if Js.includes lower "right" then
         Some (if Js.includes lower "slight" then 15
               else if Js.includes lower "hard" then 45 else 30)
       else None;
     pitch :=
       if Js.includes lower "up" || Js.includes lower "above" then
         Some (if Js.includes lower "slight" then 15
               else if Js.includes lower "high" then 45 else 30)
       else if Js.includes lower "down" || Js.includes lower "below" then
         Some (if Js.includes lower "slight" then -15
               else if Js.includes lower "low" then -45 else -30)
       else None;
     roll :=
       if Js.includes lower "tilt left" || Js.includes lower "dutch left"
       then Some (-15)
       else if Js.includes lower "tilt right"
               || Js.includes lower "dutch right"
       then Some 15
       else None |}.

End Utils.
(* ================================================================== *)
(** ** The structured prompt ([BriaStructuredPrompt], [src/app/lib/types.ts]) *)

Module Structured.

Record Lighting : Type := mkLighting {
  type : string;
  direction : string;
  shadows : string
}.

Record Aesthetics : Type := mkAesthetics {
  composition : string;
  color_scheme : string;
  mood_atmosphere : string
}.

Record Photographic : Type := mkPhotographic {
  depth_of_field : string;
  focus : string;
  camera_angle : string;
  lens_focal_length : string
}.

(** The fields that [paramsToStructuredPrompt] sets. *)
Record t : Type := mkStructured {
  short_description : string;
  lighting : Lighting;
  aesthetics : Aesthetics;
  photographic_characteristics : Photographic;
  style_medium : string
}.

End Structured.

(* ================================================================== *)
(** ** The Bria client ([lib/bria], [src/unnamed/part_004]) *)

Module Bria.
Import JsLib.

(** [describeCameraAngle] *)
Definition describeCameraAngle (camera : CameraParams) : string :=
  let parts := [] in
  let parts :=
    push_if (Z.abs (pitch camera) >? 10)
      (if pitch camera >? 0 then "high angle" else "low angle") parts in
  let parts :=
    push_if (Z.abs (yaw camera) >? 10)
      (if yaw camera >? 0 then "from the right" else "from the left")
      parts in
  let parts := push_if (Z.abs (roll camera) >? 5) "dutch angle" parts in
  if (0 <? List.length parts)%nat then join ", " parts else "straight on".

(** [fovToFocalLength] *)
Definition fovToFocalLength (fov : Z) : string :=
  if fov <? 20 then "135mm telephoto"
  else if fov <? 35 then "85mm portrait"
  else if fov <? 50 then "50mm standard"
  else if fov <? 70 then "35mm wide"
  else "24mm ultra-wide".

(** The table of [mapLightingType], which [buildRichPrompt] repeats. *)
Definition lightingMap : list (string * string) :=
  [("studio_soft", "soft studio lighting with diffused shadows");
   ("natural_daylight", "natural daylight, golden hour warmth");
   ("dramatic_side", "dramatic side lighting with strong contrast");
   ("backlit", "backlit with rim lighting");
   ("overcast", "soft overcast ambient lighting");
   ("neon", "colorful neon lighting");
   ("candlelight", "warm candlelight ambiance")].

(** [mapLightingType]: [mapping[lighting] || lighting.replace('_', ' ')] *)
Definition mapLightingType (lighting : string) : string :=
  or_text (table_get lightingMap lighting) (replace "_" " " lighting).

(** [paramsToStructuredPrompt] *)
Definition paramsToStructuredPrompt (params : FIBOParams)
  (subjectDescription : option string) : Structured.t :=
  let cameraAngle := describeCameraAngle (camera params) in
  let focalLength := fovToFocalLength (fov (camera params)) in
  {| Structured.short_description :=
       or_text subjectDescription "A professionally composed image";
     Structured.lighting :=
       {| Structured.type := mapLightingType (lighting params);
          Structured.direction := "front";
          Structured.shadows :=
            if Js.includes (lighting params) "dramatic" then "strong"
            else "soft" |};
     Structured.aesthetics :=
       {| Structured.composition := replace "_" " " (composition params);
          Structured.color_scheme := or_text (color_palette params) "natural";
          Structured.mood_atmosphere :=
            if String.eqb (realism_level params) "stylized" then "artistic"
            else "realistic" |};
     Structured.photographic_characteristics :=
       {| Structured.depth_of_field :=
            if fov (camera params) <? 30 then "shallow" else "medium";
          Structured.focus := "sharp on subject";
          Structured.camera_angle := cameraAngle;
          Structured.lens_focal_length := focalLength |};
     Structured.style_medium :=
       if String.eqb (realism_level params) "high" then "photograph"
       else "digital art" |}.

(** The composition table of [buildRichPrompt]. *)
Definition compositionMap : list (string * string) :=
  [("rule_of_thirds", "composed using rule of thirds");
   ("centered", "centered composition");
   ("golden_ratio", "golden ratio composition");
   ("symmetrical", "symmetrical composition");
   ("leading_lines", "leading lines composition")].

(** [if (k && table[k]) parts.push(table[k])] *)
Definition push_entry (table : list (string * string)) (k : string)
  (parts : list string) : list string :=
  if Js.truthy_string k then
    match table_get table k with
    | Some v => push_if (Js.truthy_string v) v parts
    | None => parts
    end
  else parts.

(** [buildRichPrompt] *)
Definition buildRichPrompt (params : FIBOParams) (userPrompt : option string)
  : string :=
  let parts := [] in
  let parts :=
    match userPrompt with
    | Some u => push_if (Js.truthy_string u) u parts
    | None => parts
    end in
  let parts :=
    match subject_description params with
    | Some d => push_if (Js.truthy_string d) d parts
    | None => parts
    end in
  let parts := push_entry lightingMap (lighting params) parts in
  let parts := push_entry compositionMap (composition params) parts in
  let parts :=
    match color_palette params with
    | Some c => push_if (Js.truthy_string c) (c ++ " color palette") parts
    | None => parts
    end in
  let parts :=
    if String.eqb (realism_level params) "high" then
      (parts ++ ["photorealistic, highly detailed"])%list
    else if String.eqb (realism_level params) "stylized" then
      (parts ++ ["artistic, stylized"])%list
    else parts in
  let joined := join ". " parts in
  if Js.truthy_string joined then joined else "A high quality image".

(** [x.includes(',') ? x.split(',')[1] : x]: the text after the prefix of
    a data URL (lines 129-135 and 208-211). *)
Definition rawBase64 (x : string) : string :=
  if Js.includes x "," then nth 1 (split "," x) EmptyString else x.

(** What [generateImage] sends to Bria. *)
Inductive Request : Type :=
| GenFill (image mask prompt : string)
    (* POST .../v2/image/edit/gen_fill, version 2, manual mask *)
| Generate (images : option string) (prompt : string).
    (* POST .../v2/image/generate, aspect ratio 1:1 *)

(** What [generateImage] does: the placeholder of [mockGenerateResponse],
    with the structured prompt that it serialises, or a request. *)
Inductive Plan : Type :=
| Placeholder (structuredPrompt : Structured.t)
| Send (request : Request).

Definition generateWithGenFill (image mask prompt : string) : Request :=
  GenFill (rawBase64 image) (rawBase64 mask) prompt.

Definition generateStandard (image prompt : string) : Request :=
  Generate (if Js.truthy_string image then Some (rawBase64 image) else None)
    prompt.

Definition generateImage (image : string) (mask : option string)
  (params : FIBOParams) (prompt : option string) (apiToken : option string)
  : Plan :=
  if negb (Js.truthy apiToken) then
    Placeholder (paramsToStructuredPrompt params None)
  else
    let textPrompt := buildRichPrompt params prompt in
    match mask with
    | Some m =>
        if Js.truthy_string image && Js.truthy_string m then
          Send (generateWithGenFill image m textPrompt)
        else Send (generateStandard image textPrompt)
    | None => Send (generateStandard image textPrompt)
    end.

End Bria.
(* ================================================================== *)
(** ** The generation route ([src/unnamed/part_000]) *)

Module Generate.
Import JsLib.

(** [extractBase64] *)
Definition extractBase64 (input : string) : string :=
  if Js.startsWith input "data:" then
    or_text (nth_error (split "," input) 1) input
  else input.

Definition lightingMap : list (string * string) :=
  [("studio_soft", "soft studio lighting");
   ("natural_daylight", "natural daylight");
   ("dramatic_side", "dramatic side lighting");
   ("backlit", "backlit with rim lighting");
   ("overcast", "soft overcast lighting");
   ("neon", "colorful neon lighting");
   ("candlelight", "warm candlelight")].

Definition compositionMap : list (string * string) :=
  [("centered", "centered composition");
   ("rule_of_thirds", "rule of thirds composition");
   ("golden_ratio", "golden ratio composition");
   ("symmetrical", "symmetrical composition");
   ("dynamic", "dynamic composition")].

(** [buildPromptFromParams] *)
Definition buildPromptFromParams (params : FIBOParams) : string :=
  let parts := [] in
  let parts :=
    match subject_description params with
    | Some d => push_if (Js.truthy_string d) d parts
    | None => parts
    end in
  let parts := Bria.push_entry lightingMap (lighting params) parts in
  let parts :=
    match color_palette params with
    | Some c => push_if (Js.truthy_string c) (c ++ " color palette") parts
    | None => parts
    end in
  let parts :=
    push_if (Z.abs (yaw (camera params)) >? 15)
      ("camera rotated "
         ++ (if yaw (camera params) >? 0 then "right" else "left")) parts in
  let parts :=
    push_if (Z.abs (pitch (camera params)) >? 15)
      ((if pitch (camera params) >? 0 then "high" else "low")
         ++ " angle shot") parts in
  let parts :=
    if fov (camera params) <? 30 then
      (parts ++ ["telephoto lens, shallow depth of field"])%list
    else if fov (camera params) >? 60 then
      (parts ++ ["wide angle lens"])%list
    else parts in
  let parts := Bria.push_entry compositionMap (composition params) parts in
  let parts :=
    if String.eqb (realism_level params) "high" then
      (parts ++ ["photorealistic, highly detailed"])%list
    else if String.eqb (realism_level params) "stylized" then
      (parts ++ ["stylized, artistic"])%list
    else parts in
  let parts :=
    push_if (String.eqb (output_format params) "hdr_16bit")
      "HDR, high dynamic range" parts in
  let joined := join ", " parts in
  if Js.truthy_string joined then joined else "A professional photograph".

(** [GenerateRequestBody]: every field may be missing from the JSON
    body; [operation] is whatever text the client sent. *)
Record GenerateRequestBody : Type := mkBody {
  image : option string;
  mask : option string;
  params : option FIBOParams;
  prompt : option string;
  operation : option string
}.

(** [operation && [...].includes(operation)] *)
Definition isInpaintOperation (operation : option string) : bool :=
  match operation with
  | Some o => Js.truthy_string o && array_includes mask_operations o
  | None => false
  end.

(** Lines 57-65: the prompt handed to [generateImage]. *)
Definition effectivePrompt (prompt operation : option string)
  (params : FIBOParams) : string :=
  let effective := or_text prompt EmptyString in
  if match operation with
     | Some o => String.eqb o "inpaint_remove"
     | None => false
     end
  then or_text prompt "empty, background continues naturally"
  else if negb (Js.truthy_string effective) then buildPromptFromParams params
  else effective.

(** Lines 55-78: the call of [generateImage] that the route makes for a
    body that it does not reject. *)
Definition plan (img : string) (body : GenerateRequestBody)
  (p : FIBOParams) (apiToken : option string) : Bria.Plan :=
  Bria.generateImage img (mask body) p
    (Some (effectivePrompt (prompt body) (operation body) p)) apiToken.

(** The answer of the route: an error payload, with the [needsMask] flag
    when it carries one, or the result of the generation. *)
Inductive Answer (Result : Type) : Type :=
| Failure (error : string) (needsMask : bool)
| Success (result : Result).
Arguments Failure {Result} error needsMask.
Arguments Success {Result} result.

Section Handler.

(** The result type of a generation, and the carrying out of a plan:
    drawing the placeholder or calling Bria, which may throw. *)
Variable Result : Type.
Variable run : Bria.Plan -> outcome Result.

(** [POST]: the console lines, the status and the answer. *)
Definition POST (request_json : outcome GenerateRequestBody)
  (apiToken : option string) : list string * (Z * Answer Result) :=
  match request_json with
  | Thrown e => (["Generate API error:"], (500, Failure e false))
  | Returned body =>
      match image body with
      | None | Some EmptyString =>
          ([], (400, Failure "Image is required" false))
      | Some img =>
          match params body with
          | None => ([], (400, Failure "FIBO parameters are required" false))
          | Some p =>
              if isInpaintOperation (operation body)
                 && negb (Js.truthy (mask body))
              then
                ([], (400,
                      Failure
                        "Please draw on the area you want to edit first! Use the brush tool to mark the region, then try again."
                        true))
              else
                let log :=
                  ["[Generate] Operation:"; "[Generate] Has mask:";
                   "[Generate] Prompt:"] in
                match run (plan img body p apiToken) with
                | Returned r => (log, (200, Success r))
                | Thrown e =>
                    ((log ++ ["Generate API error:"])%list,
                     (500, Failure e false))
                end
          end
      end
  end.

End Handler.

End Generate.

(* ================================================================== *)
(** ** The studio page ([src/unnamed/part_003]) and the chat panel
    ([src/app/components/ChatInput.tsx]) *)

Module Studio.
Import JsLib.

(** [ChatPanel.handleSubmit]: the message handed to [onSendMessage], if
    any. *)
Definition handleSubmit (input : string) (isProcessing disabled : bool)
  : option string :=
  if Js.truthy_string (Js.trim input) && negb isProcessing && negb disabled
  then Some (Js.trim input) else None.

(** The state that the handlers of [StudioPage] read. *)
Module State.
Record t : Type := mk {
  originalImage : option string;
  currentImage : option string;
  maskData : option string;
  params : FIBOParams
}.
End State.

(** [pendingOperation] *)
Module Pending.
Record t : Type := mk {
  operation : option string;
  prompt : option string;
  needsMask : option bool
}.
End Pending.

(** [currentImage || originalImage] *)
Definition imageToEdit (st : State.t) : option string :=
  or_else_text (State.currentImage st) (State.originalImage st).

(** What [handleSendMessage] does first: a chat line asking for an
    image, or the request to the agent route. *)
Inductive Sent : Type :=
| UploadFirst
| ToAgent (request : AgentRequest).

Definition handleSendMessage (st : State.t) (message : string) : Sent :=
  if negb (Js.truthy (imageToEdit st)) then UploadFirst
  else ToAgent (mkRequest (Some message) (State.params st)
                  (Js.truthy (State.maskData st))).

(** [{ ...prev, ...data.params }], the params of the answer having been
    through JSON: a field that is [undefined] there is absent, and the
    previous value stays. *)
Definition merge (prev data : FIBOParams) : FIBOParams :=
  {| camera := camera data;
     lighting := lighting data;
     color_palette :=
       match color_palette data with
       | Some v => Some v
       | None => color_palette prev
       end;
     composition := composition data;
     edit_mode :=
       match edit_mode data with
       | Some v => Some v
       | None => edit_mode prev
       end;
     subject_description :=
       match subject_description data with
       | Some v => Some v
       | None => subject_description prev
       end;
     realism_level := realism_level data;
     output_format := output_format data |}.

(** [setPendingOperation] with the fields of a resolver result. *)
Definition pending_of (r : AgentResponse) : Pending.t :=
  Pending.mk (Some (op_name (operation r))) (Some (prompt r))
    (Some (needsMask r)).

Definition opDescriptions : list (string * string) :=
  [("inpaint_remove", "🗑️ I'll remove that from the marked area.");
   ("inpaint_replace", "🔄 I'll replace what's in the marked area.");
   ("inpaint_add", "➕ I'll add that to the marked area.");
   ("style_transfer", "🎨 I'll apply that style to the whole image.");
   ("generate_new", "✨ I'll generate a new image.");
   ("camera_adjust", "📷 I'll adjust the camera/perspective.")].

(** Lines 158-175 of [handleSendMessage]: the chat line shown for an
    answer of the agent route. *)
Definition feedback (operation response : option string) (needsMask : bool)
  : string :=
  let feedback :=
    or_text response
      ("✨ Got it! Click " ++ dquote ++ "Generate" ++ dquote
         ++ " to apply your changes.") in
  if needsMask then
    "🎯 **Draw on the area first!**" ++ newline ++ newline
      ++ "Use the brush tool to mark the "
      ++ (if match operation with
             | Some o => String.eqb o "inpaint_remove"
             | None => false
             end
          then "object you want to remove"
          else if match operation with
                  | Some o => String.eqb o "inpaint_add"
                  | None => false
                  end
          then "area where you want to add"
          else "area you want to change")
      ++ "." ++ newline ++ newline ++ "Then click " ++ dquote ++ "Generate"
      ++ dquote ++ "!"
  else
    match operation with
    | Some o =>
        if Js.truthy_string o then
          or_text (table_get opDescriptions o) feedback
            ++ newline ++ newline ++ "Click " ++ dquote ++ "Generate"
            ++ dquote ++ " when ready!"
        else feedback
    | None => feedback
    end.

(** [pendingOperation?.operation && [...].includes(...)] *)
Definition needsMaskForOp (pendingOperation : option Pending.t) : bool :=
  match pendingOperation with
  | Some p =>
      match Pending.operation p with
      | Some o => Js.truthy_string o && array_includes mask_operations o
      | None => false
      end
  | None => false
  end.

(** What a click on Generate does: nothing without an image, a chat line
    asking for a mask, or the request to the generation route. *)
Inductive Click : Type :=
| Idle
| AskForMask
| ToGenerate (body : Generate.GenerateRequestBody).

Definition handleGenerate (st : State.t) (pendingOperation : option Pending.t)
  : Click :=
  if negb (Js.truthy (imageToEdit st)) then Idle
  else if needsMaskForOp pendingOperation
          && negb (Js.truthy (State.maskData st))
  then AskForMask
  else
    ToGenerate
      {| Generate.image := imageToEdit st;
         Generate.mask := State.maskData st;
         Generate.params := Some (State.params st);
         Generate.operation :=
           match pendingOperation with
           | Some p => Pending.operation p
           | None => None
           end;
         Generate.prompt :=
           match pendingOperation with
           | Some p => Pending.prompt p
           | None => None
           end |}.

End Studio.

(* ================================================================== *)
(** * Vocabulary of the statements *)

(** ** What a pattern matches *)

Module RegexSpec.
Import Regex.

Local Open Scope list_scope.

(** A position seen from outside: the character before it and the input
    that is left. *)
Definition pos : Type := (option ascii * list ascii)%type.

Definition pos_of (st : mstate) : pos := (prev st, rest st).

(** [\b] holds where exactly one side is a word character. *)
Definition boundary (x : pos) : bool :=
  xorb (match fst x with Some c => Js.is_word_char c | None => false end)
       (match snd x with c :: _ => Js.is_word_char c | [] => false end).

(** [matches r x y]: the pattern [r] can match from position [x] to
    position [y].  Priorities and captures play no part in whether a
    match exists. *)
Inductive matches : regex -> pos -> pos -> Prop :=
| M_Eps x : matches Eps x x
| M_Chr c p t : matches (Chr c) (p, c :: t) (Some c, t)
| M_Space c p t :
    Js.is_space c = true -> matches Space (p, c :: t) (Some c, t)
| M_Dot c p t :
    Js.is_line_terminator c = false -> matches Dot (p, c :: t) (Some c, t)
| M_WordB x : boundary x = true -> matches WordB x x
| M_Eos p : matches Eos (p, []) (p, [])
| M_Seq a b x y z :
    matches a x y -> matches b y z -> matches (Seq a b) x z
| M_AltL a b x y : matches a x y -> matches (Alt a b) x y
| M_AltR a b x y : matches b x y -> matches (Alt a b) x y
| M_Star0 g a x : matches (Star g a) x x
| M_StarS g a x y z :
    matches a x y ->
    (List.length (snd y) < List.length (snd x))%nat ->
    matches (Star g a) y z ->
    matches (Star g a) x z
| M_Cap i a x y : matches a x y -> matches (Cap i a) x y.

(** A continuation that accepts every matcher state at position [y]. *)
Definition succeeds_at (k : mstate -> option mstate) (y : pos) : Prop :=
  forall st, pos_of st = y -> k st <> None.

(** The character before the position reached by reading [pre] from a
    position that has [p] before it. *)
Fixpoint prev_after (p : option ascii) (pre : list ascii) : option ascii :=
  match pre with
  | [] => p
  | c :: t => prev_after (Some c) t
  end.

(** In the text [pre ++ w ++ post] there is a word boundary on either
    side of [w]. *)
Definition word_at (pre w post : list ascii) : Prop :=
  boundary (prev_after None pre, w ++ post) = true
  /\ boundary (prev_after None (pre ++ w), post) = true.

(** [w] occurs in [s] as a whole word. *)
Definition occurs_as_word (w s : string) : Prop :=
  exists pre post,
    list_ascii_of_string s = pre ++ list_ascii_of_string w ++ post
    /\ word_at pre (list_ascii_of_string w) post.

(** No line terminator in [mid]. *)
Definition same_line (mid : list ascii) : Prop :=
  Forall (fun c => Js.is_line_terminator c = false) mid.

(** Group [i] is set in a matcher state. *)
Definition has_group (i : nat) (st : mstate) : Prop :=
  lookup i (caps st) <> None.

(** A continuation that does not lose group [i]. *)
Definition keeps_group (i : nat) (k : mstate -> option mstate) : Prop :=
  forall st res, has_group i st -> k st = Some res -> has_group i res.

(** Group [i] takes part in every match of the pattern. *)
Fixpoint captures (i : nat) (r : regex) : bool :=
  match r with
  | Cap j a => (i =? j)%nat || captures i a
  | Seq a b => captures i a || captures i b
  | Alt a b => captures i a && captures i b
  | _ => false
  end.

End RegexSpec.

(** ** Operations, ranges, keyword tables *)

(** The three operations that need a mask. *)
Definition inpaint_class (o : OperationType) : Prop :=
  o = inpaint_remove \/ o = inpaint_replace \/ o = inpaint_add.

(** The three operations that do not. *)
Definition mask_free (o : OperationType) : Prop :=
  o = style_transfer \/ o = generate_new \/ o = camera_adjust.

Definition yaw_fov_in_bounds (c : CameraParams) : Prop :=
  -180 <= yaw c <= 180 /\ 10 <= fov c <= 120.

(** The checks of lines 257-260 and 263-265 as tables, in the order of
    the route: the keywords of a check and the value that it sets. *)
Definition lighting_checks : list (list string * string) :=
  [(["dramatic"], "dramatic_side");
   (["soft"], "studio_soft");
   (["natural"; "daylight"], "natural_daylight");
   (["neon"], "neon")].

Definition color_checks : list (list string * string) :=
  [(["warm"], "warm");
   (["cool"; "cold"], "cool");
   (["vibrant"], "vibrant")].

(** A check matches when the lower-cased message includes one of its
    keywords. *)
Definition matches_check (lower : string) (c : list string * string)
  : bool :=
  existsb (Js.includes lower) (fst c).

(** The value of the last check of the table that matches, if any. *)
Definition last_match (lower : string) (checks : list (list string * string))
  : option string :=
  match rev (filter (matches_check lower) checks) with
  | c :: _ => Some (snd c)
  | [] => None
  end.

(** The object phrase of an add instruction (lines 215-216): the trimmed
    first group of the add-object pattern, or the raw message when that
    pattern does not match. *)
Definition add_phrase (m : string) : string :=
  match Regex.exec Pat.add_object (Js.toLowerCase m) with
  | Some g => Js.trim (group g 1)
  | None => m
  end.

(** A value read from the parsed body is one of the six names. *)
Definition valid_tag (x : option json) : Prop :=
  exists o, x = Some (JStr (op_name o)).

(** ** Sample inputs *)

Definition yaw_minus_170 : FIBOParams := set_yaw (-170) DEFAULT_FIBO_PARAMS.

Definition unknown_tag : json := JObj [("operation", JStr "crop")].

Definition service_down : FIBOParams -> bool -> string -> outcome json :=
  fun _ _ _ => Thrown "fetch failed".

Definition service_unknown_tag
  : FIBOParams -> bool -> string -> outcome json :=
  fun _ _ _ => Returned unknown_tag.

(** ** The parameter schema (lines 40-48 of the agent route) *)

Definition lighting_presets : list string :=
  ["studio_soft"; "natural_daylight"; "dramatic_side"; "backlit";
   "overcast"; "neon"; "candlelight"].

Definition color_palettes : list string :=
  ["warm"; "cool"; "vibrant"; "muted"; "monochrome"; "pastel"; "natural"].

Definition compositions : list string :=
  ["centered"; "rule_of_thirds"; "golden_ratio"; "symmetrical"; "dynamic"].

Definition realism_levels : list string := ["high"; "medium"; "stylized"].

Definition camera_in_schema (c : CameraParams) : Prop :=
  -180 <= yaw c <= 180 /\ -90 <= pitch c <= 90
  /\ -180 <= roll c <= 180 /\ 10 <= fov c <= 120.

(** Params that the schema allows; [color_palette] may be absent. *)
Definition in_schema (p : FIBOParams) : Prop :=
  camera_in_schema (camera p)
  /\ In (lighting p) lighting_presets
  /\ (forall c, color_palette p = Some c -> In c color_palettes)
  /\ In (composition p) compositions
  /\ In (realism_level p) realism_levels.

(** One turn of the studio page without a key: the resolver runs on the
    params of the state, and its params are merged back. *)
Definition turn (p : FIBOParams) (t : string * bool) : FIBOParams :=
  Studio.merge p (params (mockAgentResponse (fst t) p (snd t))).

(** A session: the turns one after the other, each given as the message
    and whether a mask is drawn. *)
Definition session (turns : list (string * bool)) (p : FIBOParams)
  : FIBOParams :=
  fold_left turn turns p.


(** The number of occurrences of a character. *)
Fixpoint count_char (c : ascii) (s : string) : nat :=
  match s with
  | EmptyString => O
  | String a t => ((if Ascii.eqb a c then 1 else 0) + count_char c t)%nat
  end.

(** A data URL: a media type without comma, a comma, a payload without
    comma. *)
Definition data_url (mediatype payload : string) : string :=
  "data:" ++ mediatype ++ "," ++ payload.

Definition comma_free (s : string) : Prop := Js.includes s "," = false.

Arguments Regex.test : simpl never.
Arguments Regex.exec : simpl never.
Arguments Js.includes : simpl never.
Arguments Js.toLowerCase : simpl never.
Arguments Js.trim : simpl never.

(* ================================================================== *)
(** * Strings *)

Module JsFacts.

(** [s.startsWith(p)]: [s] is [p] followed by some text. *)
Lemma startsWith_iff (p : string) : forall s,
  Js.startsWith s p = true <-> exists b, s = p ++ b.
Proof.
  induction p as [|a p IH]; intros s.
  - split; [intros _; exists s; reflexivity | destruct s; reflexivity].
  - destruct s as [|c s]; cbn.
    + split; [discriminate | intros [b Hb]; discriminate Hb].
    + rewrite andb_true_iff, Ascii.eqb_eq, IH. split.
      * intros [-> [b ->]]. exists b. reflexivity.
      * intros [b [= -> ->]]. split; [reflexivity | exists b; reflexivity].
Qed.

Lemma includes_cons (c : ascii) (t p : string) :
  Js.includes (String c t) p
  = Js.startsWith (String c t) p || Js.includes t p.
Proof. reflexivity. Qed.

(** [s.includes(p)]: [p] occurs somewhere in [s]. *)
Lemma includes_iff (p : string) : forall s,
  Js.includes s p = true <-> exists a b, s = a ++ p ++ b.
Proof.
  induction s as [|c t IH].
  - change (Js.includes EmptyString p)
      with (Js.startsWith EmptyString p || false).
    rewrite orb_false_r, startsWith_iff. split.
    + intros [b Hb]. exists EmptyString, b. exact Hb.
    + intros (a & b & H). destruct a; [exists b; exact H | discriminate H].
  - rewrite includes_cons, orb_true_iff, startsWith_iff, IH. split.
    + intros [[b Hb] | (a & b & ->)].
      * exists EmptyString, b. exact Hb.
      * exists (String c a), b. reflexivity.
    + intros (a & b & H). destruct a as [|c' a].
      * left. exists b. exact H.
      * right. injection H as -> ->. exists a, b. reflexivity.
Qed.

(** A text includes what its end includes. *)
Lemma includes_append_r (a b p : string) :
  Js.includes b p = true -> Js.includes (a ++ b) p = true.
Proof.
  intros H. induction a as [|c a IH]; [exact H|].
  change (String c a ++ b) with (String c (a ++ b)).
  rewrite includes_cons, IH. apply orb_true_r.
Qed.

Lemma toLowerCase_cons (c : ascii) (s : string) :
  Js.toLowerCase (String c s) = String (Js.lower_char c) (Js.toLowerCase s).
Proof. reflexivity. Qed.

(** Lower-casing keeps the length and is idempotent. *)
Lemma toLowerCase_length (s : string) :
  String.length (Js.toLowerCase s) = String.length s.
Proof.
  induction s as [|c s IH]; [reflexivity|].
  rewrite toLowerCase_cons. cbn. congruence.
Qed.

Lemma lower_char_idem (c : ascii) :
  Js.lower_char (Js.lower_char c) = Js.lower_char c.
Proof.
  destruct c as [[] [] [] [] [] [] [] []]; vm_compute; reflexivity.
Qed.

Lemma toLowerCase_idem (s : string) :
  Js.toLowerCase (Js.toLowerCase s) = Js.toLowerCase s.
Proof.
  induction s as [|c s IH]; [reflexivity|].
  rewrite !toLowerCase_cons, lower_char_idem, IH. reflexivity.
Qed.

End JsFacts.

(* ================================================================== *)
(** * The matcher against the meaning of patterns *)

Module RegexFacts.
Import Regex RegexSpec.

Local Open Scope list_scope.

Lemma or_else_some {A} (x y : option A) (v : A) :
  or_else x y = Some v -> x = Some v \/ y = Some v.
Proof. destruct x; cbn; auto. Qed.

Lemma or_else_left {A} (x y : option A) : x <> None -> or_else x y <> None.
Proof. destruct x; cbn; congruence. Qed.

Lemma or_else_right {A} (x y : option A) : y <> None -> or_else x y <> None.
Proof. destruct x; cbn; congruence. Qed.

Lemma one_sound (f : ascii -> bool) k st res :
  one f k st = Some res ->
  exists c t, rest st = c :: t /\ f c = true /\ k (advance c t st) = Some res.
Proof.
  unfold one. destruct (rest st) as [|c t]; [discriminate|].
  destruct (f c) eqn:E; [|discriminate]. eauto.
Qed.

Lemma pos_of_eta st : pos_of st = (prev st, rest st).
Proof. reflexivity. Qed.

Section StarSound.
Variables (g : bool) (a : regex) (k : mstate -> option mstate).
Hypothesis body_sound : forall k st res,
  rmatch a k st = Some res ->
  exists st', matches a (pos_of st) (pos_of st') /\ k st' = Some res.

Lemma star_loop_sound fuel : forall st res,
  star_loop g (rmatch a) k fuel st = Some res ->
  exists st', matches (Star g a) (pos_of st) (pos_of st') /\ k st' = Some res.
Proof.
  induction fuel as [|fuel IH]; intros st res H; cbn in H.
  - exists st. split; [constructor | exact H].
  - assert (Hcase :
      rmatch a (fun st' =>
        if (List.length (rest st') <? List.length (rest st))%nat
        then star_loop g (rmatch a) k fuel st' else None) st = Some res
      \/ k st = Some res).
    { destruct g; apply or_else_some in H; tauto. }
    destruct Hcase as [Hit | Hk].
    + apply body_sound in Hit as (st1 & Hm & Hc).
      destruct (List.length (rest st1) <? List.length (rest st))%nat eqn:Hlt;
        [|discriminate].
      apply Nat.ltb_lt in Hlt.
      apply IH in Hc as (st2 & Hm2 & Hk).
      exists st2. split; [|exact Hk].
      eapply M_StarS; eauto.
    + exists st. split; [constructor | exact Hk].
Qed.
End StarSound.

Lemma rmatch_sound r : forall k st res,
  rmatch r k st = Some res ->
  exists st', matches r (pos_of st) (pos_of st') /\ k st' = Some res.
Proof.
  induction r as [| c | | | | | a IHa b IHb | a IHa b IHb | g a IHa | i a IHa];
    intros k st res H; cbn [rmatch] in H.
  - exists st. split; [constructor | exact H].
  - apply one_sound in H as (c' & t & Hr & Hc & Hk).
    apply Ascii.eqb_eq in Hc. subst c'.
    eexists. split; [|exact Hk]. unfold pos_of. rewrite Hr. constructor.
  - apply one_sound in H as (c' & t & Hr & Hc & Hk).
    eexists. split; [|exact Hk]. unfold pos_of. rewrite Hr.
    constructor. exact Hc.
  - apply one_sound in H as (c' & t & Hr & Hc & Hk).
    eexists. split; [|exact Hk]. unfold pos_of. rewrite Hr.
    constructor. apply negb_true_iff, Hc.
  - destruct (at_boundary st) eqn:Hb; [|discriminate].
    exists st. split; [constructor; exact Hb | exact H].
  - destruct (rest st) eqn:Hr; [|discriminate].
    exists st. split; [|exact H]. unfold pos_of. rewrite Hr. constructor.
  - apply IHa in H as (st1 & Hm1 & H). apply IHb in H as (st2 & Hm2 & H).
    exists st2. split; [econstructor; eauto | exact H].
  - apply or_else_some in H as [H | H].
    + apply IHa in H as (st1 & Hm & H). exists st1. split; [apply M_AltL, Hm | exact H].
    + apply IHb in H as (st1 & Hm & H). exists st1. split; [apply M_AltR, Hm | exact H].
  - eapply star_loop_sound; eauto.
  - apply IHa in H as (st1 & Hm & H).
    eexists. split; [|exact H]. constructor. exact Hm.
Qed.

Lemma one_complete (f : ascii -> bool) k st c t :
  rest st = c :: t -> f c = true -> k (advance c t st) <> None ->
  one f k st <> None.
Proof. intros Hr Hf Hk. unfold one. rewrite Hr, Hf. exact Hk. Qed.

Section StarComplete.
Variables (g : bool) (a : regex) (k : mstate -> option mstate).
Hypothesis body_complete : forall x y, matches a x y ->
  forall k st, pos_of st = x -> succeeds_at k y -> rmatch a k st <> None.

Lemma star_loop_complete x z :
  matches (Star g a) x z ->
  forall fuel st, pos_of st = x -> (List.length (rest st) < fuel)%nat ->
  succeeds_at k z ->
  star_loop g (rmatch a) k fuel st <> None.
Proof.
  intros Hm. remember (Star g a) as r eqn:Hr.
  induction Hm as [| | | | | | | | | g' a' x | g' a' x y z Ha _ Hlt Hs IH |];
    try discriminate Hr; injection Hr as -> ->;
    intros fuel st Hp Hf Hk;
    (destruct fuel as [|fuel]; [lia|]); cbn [star_loop].
  - destruct g; [apply or_else_right | apply or_else_left]; apply Hk, Hp.
  - assert (Hit :
      rmatch a (fun st' =>
        if (List.length (rest st') <? List.length (rest st))%nat
        then star_loop g (rmatch a) k fuel st' else None) st <> None).
    { apply (body_complete x y Ha); [exact Hp|].
      intros st' Hp'.
      assert (Hl : (List.length (rest st') < List.length (rest st))%nat).
      { subst x y. exact Hlt. }
      apply Nat.ltb_lt in Hl as Hl'. rewrite Hl'.
      apply IH; [reflexivity | exact Hp' | lia | exact Hk]. }
    destruct g; [apply or_else_left | apply or_else_right]; exact Hit.
Qed.
End StarComplete.

Lemma rmatch_complete r : forall x y, matches r x y ->
  forall k st, pos_of st = x -> succeeds_at k y -> rmatch r k st <> None.
Proof.
  induction r as [| c | | | | | a IHa b IHb | a IHa b IHb | g a IHa | i a IHa];
    intros x y Hm k st Hp Hk; cbn [rmatch];
    try (eapply star_loop_complete; solve [eauto]);
    unfold pos_of in Hp; inversion Hm; subst;
    try match goal with
        | H : (_, _) = (prev st, rest st) |- _ =>
            injection H as Hp1 Hr1; symmetry in Hr1
        end.
  - apply Hk. reflexivity.
  - eapply one_complete;
      [exact Hr1 | apply Ascii.eqb_refl | apply Hk; reflexivity].
  - eapply one_complete; [exact Hr1 | assumption | apply Hk; reflexivity].
  - eapply one_complete;
      [exact Hr1 | apply negb_true_iff; assumption | apply Hk; reflexivity].
  - assert (Hb : at_boundary st = true) by assumption.
    rewrite Hb. apply Hk. reflexivity.
  - rewrite Hr1. apply Hk. unfold pos_of. congruence.
  - eapply IHa; [eassumption | reflexivity |].
    intros st1 Hp1. eapply IHb; [eassumption | exact Hp1 | exact Hk].
  - apply or_else_left. eapply IHa; eauto.
  - apply or_else_right. eapply IHb; eauto.
  - eapply IHa; [eassumption | reflexivity |].
    intros st1 Hp1. apply Hk. exact Hp1.
Qed.

Lemma prev_after_app p u v :
  prev_after p (u ++ v) = prev_after (prev_after p u) v.
Proof. revert p. induction u as [|c u IH]; intros p; cbn; auto. Qed.

Lemma search_eq r p s :
  search r p s
  = match rmatch r Some (MState p s []) with
    | Some st => Some st
    | None => match s with [] => None | c :: t => search r (Some c) t end
    end.
Proof. destruct s; reflexivity. Qed.

Lemma search_sound r s : forall p res,
  search r p s = Some res ->
  exists pre suf y, s = pre ++ suf /\ matches r (prev_after p pre, suf) y.
Proof.
  induction s as [|c t IH]; intros p res H; rewrite search_eq in H.
  - destruct (rmatch r Some (MState p [] [])) eqn:E; [|discriminate].
    apply rmatch_sound in E as (st' & Hm & _).
    exists [], [], (pos_of st'). split; [reflexivity | exact Hm].
  - destruct (rmatch r Some (MState p (c :: t) [])) eqn:E.
    + apply rmatch_sound in E as (st' & Hm & _).
      exists [], (c :: t), (pos_of st'). split; [reflexivity | exact Hm].
    + apply IH in H as (pre & suf & y & -> & Hm).
      exists (c :: pre), suf, y. split; [reflexivity | exact Hm].
Qed.

Lemma search_complete r pre : forall suf p y,
  matches r (prev_after p pre, suf) y -> search r p (pre ++ suf) <> None.
Proof.
  induction pre as [|c pre IH]; intros suf p y Hm; rewrite search_eq.
  - cbn in Hm |- *.
    destruct (rmatch r Some (MState p suf [])) eqn:E; [discriminate|].
    exfalso. revert E.
    eapply rmatch_complete; [exact Hm | reflexivity |].
    intros st _. discriminate.
  - destruct (rmatch r Some (MState p ((c :: pre) ++ suf) []));
      [discriminate|].
    cbn. eapply IH. exact Hm.
Qed.

(** The matcher decides whether the pattern matches somewhere. *)
Theorem test_iff r s :
  test r s = true
  <-> exists pre suf y,
        list_ascii_of_string s = pre ++ suf
        /\ matches r (prev_after None pre, suf) y.
Proof.
  unfold test. split.
  - destruct (search r None (list_ascii_of_string s)) eqn:E; [|discriminate].
    intros _. eapply search_sound, E.
  - intros (pre & suf & y & -> & Hm).
    destruct (search r None (pre ++ suf)) eqn:E; [reflexivity|].
    exfalso. revert E. eapply search_complete, Hm.
Qed.

(** *** Literal words *)

Lemma matches_chr c x y :
  matches (Chr c) x y <-> snd x = c :: snd y /\ fst y = Some c.
Proof.
  split.
  - intros H; inversion H; subst; cbn; auto.
  - destruct x as [p s], y as [q t]; cbn. intros [-> ->]. constructor.
Qed.

Lemma matches_seq a b x z :
  matches (Seq a b) x z <-> exists y, matches a x y /\ matches b y z.
Proof.
  split.
  - intros H; inversion H; subst; eauto.
  - intros (y & Ha & Hb). econstructor; eauto.
Qed.

Lemma matches_eps x y : matches Eps x y <-> x = y.
Proof.
  split.
  - intros H; inversion H; reflexivity.
  - intros ->. constructor.
Qed.

Lemma matches_lit w : forall x y,
  matches (lit w) x y
  <-> snd x = list_ascii_of_string w ++ snd y
      /\ fst y = prev_after (fst x) (list_ascii_of_string w).
Proof.
  induction w as [|c t IH]; intros x y.
  - cbn. rewrite matches_eps. destruct x, y; cbn. split.
    + intros [= -> ->]; auto.
    + intros [-> ->]; reflexivity.
  - assert (Hs : matches (lit (String c t)) x y
                 <-> matches (Seq (Chr c) (lit t)) x y).
    { destruct t; [|reflexivity]. cbn. rewrite matches_seq. split.
      - intros H. exists y. split; [exact H | constructor].
      - intros (y' & H & He). apply matches_eps in He. subst. exact H. }
    rewrite Hs, matches_seq. cbn. split.
    + intros (m & Hc & Hl). apply matches_chr in Hc as [Hc1 Hc2].
      apply IH in Hl as [Hl1 Hl2]. rewrite Hc1, Hl1, Hl2, Hc2. auto.
    + intros [H1 H2].
      exists (Some c, list_ascii_of_string t ++ snd y). split.
      * apply matches_chr. auto.
      * apply IH. auto.
Qed.

Lemma matches_alt a b x y :
  matches (Alt a b) x y <-> matches a x y \/ matches b x y.
Proof.
  split.
  - intros H; inversion H; subst; auto.
  - intros [H|H]; [apply M_AltL | apply M_AltR]; exact H.
Qed.

Lemma matches_words ws : ws <> [] -> forall x y,
  matches (words ws) x y <-> exists w, In w ws /\ matches (lit w) x y.
Proof.
  induction ws as [|w ws IH]; [congruence|]. intros _ x y.
  destruct ws as [|w' ws].
  - cbn. split.
    + intros H. exists w. auto.
    + intros (w0 & [<-|[]] & H). exact H.
  - change (words (w :: w' :: ws)) with (Alt (lit w) (words (w' :: ws))).
    rewrite matches_alt, IH by discriminate. split.
    + intros [H | (w0 & Hin & H)].
      * exists w. split; [left; reflexivity | exact H].
      * exists w0. split; [right; exact Hin | exact H].
    + intros (w0 & [<- | Hin] & H); [left; exact H | right; eauto].
Qed.

Lemma matches_wordb x y :
  matches WordB x y <-> x = y /\ boundary x = true.
Proof.
  split.
  - intros H; inversion H; subst; auto.
  - intros [-> H]. constructor. exact H.
Qed.

Lemma matches_cap i a x y : matches (Cap i a) x y <-> matches a x y.
Proof.
  split.
  - intros H; inversion H; subst; auto.
  - apply M_Cap.
Qed.

Lemma matches_whole_word i ws : ws <> [] -> forall x y,
  matches (Pat.whole_word i ws) x y
  <-> boundary x = true /\ boundary y = true
      /\ exists w, In w ws /\ matches (lit w) x y.
Proof.
  intros Hne x y. unfold Pat.whole_word. cbn [seq].
  rewrite matches_seq. split.
  - intros (x' & Hb & H). apply matches_wordb in Hb as [<- Hb].
    apply matches_seq in H as (y' & Hc & Hb').
    apply matches_wordb in Hb' as [-> Hb'].
    apply matches_cap, matches_words in Hc; auto.
  - intros (Hx & Hy & Hw). exists x. split; [apply matches_wordb; auto|].
    apply matches_seq. exists y. split; [|apply matches_wordb; auto].
    apply matches_cap, matches_words; auto.
Qed.

(** What a pattern [\b(w1|...|wn)\b] tests. *)
Theorem test_whole_word i ws s : ws <> [] ->
  test (Pat.whole_word i ws) s = true
  <-> exists w, In w ws /\ occurs_as_word w s.
Proof.
  intros Hne. rewrite test_iff. unfold occurs_as_word, word_at. split.
  - intros (pre & suf & y & Hs & Hm).
    apply matches_whole_word in Hm as (Hx & Hy & w & Hin & Hl); auto.
    apply matches_lit in Hl as [Hl1 Hl2]. cbn in Hl1, Hl2.
    exists w. split; [exact Hin|]. exists pre, (snd y).
    rewrite Hs, Hl1. split; [reflexivity|].
    rewrite Hl1 in Hx. split; [exact Hx|].
    rewrite prev_after_app, <- Hl2. destruct y; exact Hy.
  - intros (w & Hin & pre & post & Hs & Hx & Hy).
    exists pre, (list_ascii_of_string w ++ post),
      (prev_after None (pre ++ list_ascii_of_string w), post).
    split; [exact Hs|].
    apply matches_whole_word; auto. repeat split; auto.
    exists w. split; [exact Hin|]. apply matches_lit. cbn.
    split; [reflexivity | apply prev_after_app].
Qed.

Lemma matches_dots g x y :
  matches (Star g Dot) x y
  <-> exists mid,
        snd x = mid ++ snd y /\ same_line mid
        /\ fst y = prev_after (fst x) mid.
Proof.
  split.
  - intros H. remember (Star g Dot) as r eqn:Hr.
    induction H as [| | | | | | | | | g' a x | g' a x y z Ha _ _ _ IH |];
      try discriminate Hr; injection Hr as -> ->.
    + exists []. repeat split. constructor.
    + destruct (IH eq_refl) as (mid & H1 & H2 & H3).
      inversion Ha; subst. cbn in *.
      exists (c :: mid). rewrite H1, H3. repeat split.
      constructor; assumption.
  - intros (mid & H1 & H2 & H3). revert x H1 H3.
    induction H2 as [|c mid Hc _ IH]; intros [p s] H1 H3; cbn in *.
    + destruct y; cbn in *; subst. constructor.
    + subst s. eapply M_StarS with (y := (Some c, mid ++ snd y)).
      * constructor. exact Hc.
      * cbn. lia.
      * apply IH; auto.
Qed.

Lemma matches_word_then i ws r : ws <> [] -> forall x z,
  matches (Seq WordB (Seq (Cap i (words ws)) (Seq WordB r))) x z
  <-> exists y, matches (Pat.whole_word i ws) x y /\ matches r y z.
Proof.
  intros Hne x z. unfold Pat.whole_word. cbn [seq]. split.
  - intros H. apply matches_seq in H as (x1 & H1 & H).
    apply matches_seq in H as (x2 & H2 & H).
    apply matches_seq in H as (x3 & H3 & H).
    exists x3. split; [|exact H].
    apply matches_seq. exists x1. split; [exact H1|].
    apply matches_seq. exists x2. auto.
  - intros (y & Hw & Hr).
    apply matches_seq in Hw as (x1 & H1 & Hw).
    apply matches_seq in Hw as (x2 & H2 & H3).
    apply matches_seq. exists x1. split; [exact H1|].
    apply matches_seq. exists x2. split; [exact H2|].
    apply matches_seq. exists y. auto.
Qed.

(** What the replace pattern tests: a replace-verb as a whole word, then
    any text without a line terminator, then a connector as a whole
    word. *)
Theorem test_replace s :
  test Pat.replace s = true
  <-> exists v c pre mid post,
        In v Pat.replace_verbs /\ In c Pat.connectors
        /\ list_ascii_of_string s
           = pre ++ list_ascii_of_string v ++ mid
               ++ list_ascii_of_string c ++ post
        /\ word_at pre (list_ascii_of_string v)
             (mid ++ list_ascii_of_string c ++ post)
        /\ same_line mid
        /\ word_at (pre ++ list_ascii_of_string v ++ mid)
             (list_ascii_of_string c) post.
Proof.
  rewrite test_iff. unfold Pat.replace, word_at. cbn [seq]. split.
  - intros (pre & suf & z & Hs & Hm).
    apply matches_word_then in Hm as (y1 & Hv & Hm); [|discriminate].
    apply matches_seq in Hm as (y2 & Hd & Hc).
    apply matches_whole_word in Hv as (Hb1 & Hb2 & v & Hv & Hl);
      [|discriminate].
    apply matches_whole_word in Hc as (Hb3 & Hb4 & c & Hc & Hl');
      [|discriminate].
    apply matches_lit in Hl as [Hl1 Hl2].
    apply matches_dots in Hd as (mid & Hd1 & Hline & Hd2).
    apply matches_lit in Hl' as [Hl3 Hl4].
    destruct y1 as [p1 s1], y2 as [p2 s2], z as [p3 s3]. cbn in *.
    subst s2 s1 suf p3 p2 p1.
    exists v, c, pre, mid, s3. rewrite !app_assoc, !prev_after_app.
    rewrite <- !app_assoc. repeat split; auto.
  - intros (v & c & pre & mid & post & Hv & Hc & Hs & [Hb1 Hb2] & Hline
            & [Hb3 Hb4]).
    exists pre, (list_ascii_of_string v ++ mid ++ list_ascii_of_string c
                   ++ post),
      (prev_after None
         (pre ++ list_ascii_of_string v ++ mid ++ list_ascii_of_string c),
       post).
    split; [exact Hs|].
    apply matches_word_then; [discriminate|].
    exists (prev_after None (pre ++ list_ascii_of_string v),
            mid ++ list_ascii_of_string c ++ post). split.
    + apply matches_whole_word; [discriminate|]. repeat split; auto.
      exists v. split; [exact Hv|]. apply matches_lit. cbn.
      split; [reflexivity | apply prev_after_app].
    + apply matches_seq.
      exists (prev_after None (pre ++ list_ascii_of_string v ++ mid),
              list_ascii_of_string c ++ post). split.
      * apply matches_dots. exists mid. cbn. repeat split; auto.
        rewrite !prev_after_app. reflexivity.
      * apply matches_whole_word; [discriminate|]. repeat split; auto.
        -- rewrite <- ?app_assoc, ?prev_after_app in Hb4 |- *. exact Hb4.
        -- exists c. split; [exact Hc|]. apply matches_lit. cbn.
           split; [reflexivity|]. rewrite !prev_after_app. reflexivity.
Qed.

(** *** Capture groups *)

Lemma has_group_set_cap i j v st :
  has_group i st -> has_group i (set_cap j v st).
Proof.
  unfold has_group. cbn. destruct (i =? j)%nat; [discriminate | auto].
Qed.

Lemma has_group_set_cap_same i v st : has_group i (set_cap i v st).
Proof. unfold has_group. cbn. rewrite Nat.eqb_refl. discriminate. Qed.

Lemma one_keeps_group i f k :
  keeps_group i k -> keeps_group i (one f k).
Proof.
  intros Hk st res Hg H.
  apply one_sound in H as (c & t & _ & _ & H).
  eapply Hk; [|exact H]. exact Hg.
Qed.

Lemma star_loop_keeps_group i g body k :
  (forall k', keeps_group i k' -> keeps_group i (body k')) ->
  keeps_group i k ->
  forall fuel, keeps_group i (star_loop g body k fuel).
Proof.
  intros Hbody Hk fuel. induction fuel as [|fuel IH]; intros st res Hg H.
  - exact (Hk st res Hg H).
  - cbn [star_loop] in H.
    assert (Hagain : keeps_group i
              (fun st' =>
                 if (List.length (rest st') <? List.length (rest st))%nat
                 then star_loop g body k fuel st' else None)).
    { intros st' res' Hg' H'.
      destruct (List.length (rest st') <? List.length (rest st))%nat;
        [|discriminate].
      exact (IH st' res' Hg' H'). }
    destruct g; apply or_else_some in H as [H | H];
      solve [ exact (Hk st res Hg H)
            | exact (Hbody _ Hagain st res Hg H) ].
Qed.

Lemma rmatch_keeps_group i r : forall k,
  keeps_group i k -> keeps_group i (rmatch r k).
Proof.
  induction r as [| c | | | | | a IHa b IHb | a IHa b IHb | g a IHa | j a IHa];
    intros k Hk; cbn [rmatch];
    try (apply one_keeps_group; exact Hk).
  - exact Hk.
  - intros st res Hg H. destruct (at_boundary st); [|discriminate].
    exact (Hk st res Hg H).
  - intros st res Hg H. destruct (rest st); [|discriminate].
    exact (Hk st res Hg H).
  - apply IHa, IHb, Hk.
  - intros st res Hg H. apply or_else_some in H as [H | H].
    + exact (IHa k Hk st res Hg H).
    + exact (IHb k Hk st res Hg H).
  - intros st res Hg H. revert H.
    apply star_loop_keeps_group; auto.
  - intros st res Hg H. revert H. apply IHa; [|exact Hg].
    intros st' res' Hg' H'. eapply Hk; [|exact H'].
    apply has_group_set_cap, Hg'.
Qed.

Lemma rmatch_sets_group i r : captures i r = true -> forall k st res,
  keeps_group i k -> rmatch r k st = Some res -> has_group i res.
Proof.
  induction r as [| c | | | | | a IHa b IHb | a IHa b IHb | g a IHa | j a IHa];
    cbn [captures]; try discriminate; intros Hc k st res Hk H;
    cbn [rmatch] in H.
  - apply orb_true_iff in Hc as [Hc | Hc].
    + eapply (IHa Hc); [|exact H]. apply rmatch_keeps_group, Hk.
    + apply rmatch_sound in H as (st1 & _ & H). eapply (IHb Hc); eauto.
  - apply andb_true_iff in Hc as [Ha Hb].
    apply or_else_some in H as [H | H]; [eapply IHa | eapply IHb]; eauto.
  - apply orb_true_iff in Hc as [Hc | Hc].
    + apply Nat.eqb_eq in Hc. subst j.
      apply rmatch_sound in H as (st1 & _ & H).
      eapply Hk; [|exact H]. apply has_group_set_cap_same.
    + eapply (IHa Hc); [|exact H].
      intros st' res' Hg' H'. eapply Hk; [|exact H'].
      apply has_group_set_cap, Hg'.
Qed.

Lemma search_sets_group i r : captures i r = true -> forall s p res,
  search r p s = Some res -> has_group i res.
Proof.
  intros Hc s. induction s as [|c t IH]; intros p res H;
    rewrite search_eq in H.
  - destruct (rmatch r Some (MState p [] [])) eqn:E; [|discriminate].
    injection H as <-. eapply rmatch_sets_group; [exact Hc | | exact E].
    intros st res' Hg [= <-]. exact Hg.
  - destruct (rmatch r Some (MState p (c :: t) [])) eqn:E.
    + injection H as <-. eapply rmatch_sets_group; [exact Hc | | exact E].
      intros st res' Hg [= <-]. exact Hg.
    + eapply IH, H.
Qed.

(** A group that takes part in every match of the pattern is defined in
    the result of [match]. *)
Theorem exec_group_defined i r s m :
  captures i r = true -> exec r s = Some m -> exists g, m i = Some g.
Proof.
  intros Hc. unfold exec.
  destruct (search r None (list_ascii_of_string s)) as [st|] eqn:E;
    [|discriminate].
  intros [= <-]. apply (search_sets_group i r Hc) in E.
  unfold has_group in E. destruct (lookup i (caps st)); [eauto | congruence].
Qed.

(** X25.  The groups that the route reads from its three extraction
    patterns are defined whenever the pattern matches, so reading
    [match[1]] or [match[2]] never yields [undefined] and [match[1].trim()]
    does not throw. *)
Corollary extraction_groups_defined (s : string) (m : nat -> option string) :
  (exec Pat.removal_object s = Some m -> exists g, m 1%nat = Some g)
  /\ (exec Pat.add_object s = Some m -> exists g, m 1%nat = Some g)
  /\ (exec Pat.replace_parts s = Some m ->
      (exists g, m 1%nat = Some g) /\ (exists g, m 2%nat = Some g)).
Proof.
  split; [| split]; intros E; [| | split];
    eapply exec_group_defined; try exact E; reflexivity.
Qed.

End RegexFacts.

(* ================================================================== *)
(** * Properties of the rule-based resolver *)

Lemma inpaint_or_mask_free (o : OperationType) :
  inpaint_class o \/ mask_free o.
Proof. unfold inpaint_class, mask_free. destruct o; auto. Qed.

(** The scenarios of the specification. *)
Example remove_the_car :
  let r := mockAgentResponse "remove the car from the street"
             DEFAULT_FIBO_PARAMS false in
  operation r = inpaint_remove
  /\ subject_description (params r) = Some "car"
  /\ needsMask r = true
  /\ prompt r
     = "Remove car from the marked area and fill with natural background".
Proof. vm_compute. repeat split. Qed.

Example replace_the_sky :
  let r := mockAgentResponse "replace the sky with a sunset"
             DEFAULT_FIBO_PARAMS true in
  operation r = inpaint_replace
  /\ subject_description (params r) = Some "Replace sky with a sunset"
  /\ needsMask r = false.
Proof. vm_compute. repeat split. Qed.

Example zoom_in_closer :
  let r := mockAgentResponse "zoom in closer"
             (set_fov 50 DEFAULT_FIBO_PARAMS) false in
  operation r = camera_adjust
  /\ fov (camera (params r)) = 35
  /\ needsMask r = false.
Proof. vm_compute. repeat split. Qed.

(** *** How the result is assembled *)

Section Pipeline.

Variables (message : string) (p0 : FIBOParams) (mask : bool).

Let lower := Js.toLowerCase message.
Let classified := classify message lower mask (initial message p0).

Lemma mock_operation :
  operation (mockAgentResponse message p0 mask) = l_operation classified.
Proof. reflexivity. Qed.

Lemma mock_prompt :
  prompt (mockAgentResponse message p0 mask) = l_prompt classified.
Proof. reflexivity. Qed.

Lemma mock_needsMask :
  needsMask (mockAgentResponse message p0 mask)
  = array_includes mask_operations
      (op_name (operation (mockAgentResponse message p0 mask)))
    && negb mask.
Proof. reflexivity. Qed.

Lemma mock_params :
  params (mockAgentResponse message p0 mask)
  = set_edit_mode
      (if Js.startsWith
            (op_name (operation (mockAgentResponse message p0 mask)))
            "inpaint"
       then "mask" else "full")
      (parse_color lower
         (parse_lighting lower
            (parse_camera lower (updatedParams classified)))).
Proof. reflexivity. Qed.

Lemma mock_response :
  response (mockAgentResponse message p0 mask)
  = if needsMask (mockAgentResponse message p0 mask)
    then
      "🎯 Please draw on "
        ++ (if Js.truthy
                 (subject_description
                    (params (mockAgentResponse message p0 mask)))
            then subject_text (params (mockAgentResponse message p0 mask))
            else "the area")
        ++ " first!" ++ newline ++ newline
        ++ "Use the brush tool to mark the area, then click " ++ dquote
        ++ "Generate" ++ dquote ++ "."
    else l_response classified.
Proof. reflexivity. Qed.

End Pipeline.

(** *** What each step leaves alone *)

(** Classification touches [subject_description] and nothing else of the
    params. *)
Lemma classify_params (um lo : string) (h : bool) (l : Locals) :
  updatedParams (classify um lo h l) = updatedParams l
  \/ exists s,
       updatedParams (classify um lo h l)
       = set_subject_description s (updatedParams l).
Proof.
  unfold classify.
  destruct (Regex.test Pat.removal lo); [right; eexists; reflexivity|].
  destruct (Regex.test Pat.replace lo).
  { destruct (Regex.exec Pat.replace_parts lo);
      [right; eexists; reflexivity | left; reflexivity]. }
  destruct (Regex.test Pat.add lo); [right; eexists; reflexivity|].
  destruct (Regex.test Pat.camera_words lo
            && negb (Regex.test Pat.not_camera_only lo));
    [left; reflexivity|].
  destruct (Regex.test Pat.creation lo && negb h);
    right; eexists; reflexivity.
Qed.

Lemma classify_camera (um lo : string) (h : bool) (l : Locals) :
  camera (updatedParams (classify um lo h l)) = camera (updatedParams l).
Proof.
  destruct (classify_params um lo h l) as [-> | [s ->]]; reflexivity.
Qed.

Lemma classify_lighting (um lo : string) (h : bool) (l : Locals) :
  lighting (updatedParams (classify um lo h l)) = lighting (updatedParams l).
Proof.
  destruct (classify_params um lo h l) as [-> | [s ->]]; reflexivity.
Qed.

Lemma classify_color_palette (um lo : string) (h : bool) (l : Locals) :
  color_palette (updatedParams (classify um lo h l))
  = color_palette (updatedParams l).
Proof.
  destruct (classify_params um lo h l) as [-> | [s ->]]; reflexivity.
Qed.

Lemma classify_passthrough (um lo : string) (h : bool) (l : Locals) :
  let p := updatedParams (classify um lo h l) in
  composition p = composition (updatedParams l)
  /\ realism_level p = realism_level (updatedParams l)
  /\ output_format p = output_format (updatedParams l).
Proof.
  destruct (classify_params um lo h l) as [-> | [s ->]];
    repeat split; reflexivity.
Qed.

Ltac split_ifs :=
  repeat match goal with
         | |- context [if ?b then _ else _] => destruct b; cbn
         end.

(** The camera step touches [yaw] and [fov] only. *)
Lemma parse_camera_frame (lo : string) (p : FIBOParams) :
  let q := parse_camera lo p in
  pitch (camera q) = pitch (camera p)
  /\ roll (camera q) = roll (camera p)
  /\ lighting q = lighting p
  /\ color_palette q = color_palette p
  /\ composition q = composition p
  /\ edit_mode q = edit_mode p
  /\ subject_description q = subject_description p
  /\ realism_level q = realism_level p
  /\ output_format q = output_format p.
Proof.
  unfold parse_camera, zoom_out, zoom_in, turn_right, turn_left; cbn.
  split_ifs; repeat split; reflexivity.
Qed.

(** The lighting step touches [lighting] only. *)
Lemma parse_lighting_frame (lo : string) (p : FIBOParams) :
  let q := parse_lighting lo p in
  camera q = camera p
  /\ color_palette q = color_palette p
  /\ composition q = composition p
  /\ edit_mode q = edit_mode p
  /\ subject_description q = subject_description p
  /\ realism_level q = realism_level p
  /\ output_format q = output_format p.
Proof.
  unfold parse_lighting; cbn. split_ifs; repeat split; reflexivity.
Qed.

(** The color step touches [color_palette] only. *)
Lemma parse_color_frame (lo : string) (p : FIBOParams) :
  let q := parse_color lo p in
  camera q = camera p
  /\ lighting q = lighting p
  /\ composition q = composition p
  /\ edit_mode q = edit_mode p
  /\ subject_description q = subject_description p
  /\ realism_level q = realism_level p
  /\ output_format q = output_format p.
Proof.
  unfold parse_color; cbn. split_ifs; repeat split; reflexivity.
Qed.

(** The camera of the result is the camera step run on the input's
    camera. *)
Lemma mock_camera (m : string) (p : FIBOParams) (h : bool) :
  camera (params (mockAgentResponse m p h))
  = camera (parse_camera (Js.toLowerCase m) p).
Proof.
  rewrite mock_params. cbn [set_edit_mode camera].
  set (lo := Js.toLowerCase m).
  set (q := updatedParams (classify m lo h (initial m p))).
  destruct (parse_color_frame lo (parse_lighting lo (parse_camera lo q)))
    as [-> _].
  destruct (parse_lighting_frame lo (parse_camera lo q)) as [-> _].
  assert (Hc : camera q = camera p) by apply classify_camera.
  unfold parse_camera, zoom_out, zoom_in, turn_right, turn_left.
  split_ifs; rewrite ?Hc; reflexivity.
Qed.

(* ================================================================== *)
(** ** The mask gate *)

(** C1.  For every message, params and mask flag, the result of the
    rule-based resolver has [needsMask] true exactly when its operation
    is [inpaint_remove], [inpaint_replace] or [inpaint_add] and [hasMask]
    is false. *)
Theorem needsMask_iff_inpaint_without_mask
  (m : string) (p : FIBOParams) (h : bool) :
  needsMask (mockAgentResponse m p h) = true
  <-> inpaint_class (operation (mockAgentResponse m p h)) /\ h = false.
Proof.
  rewrite mock_needsMask.
  generalize (operation (mockAgentResponse m p h)) as o.
  unfold inpaint_class.
  intros o; destruct o, h; cbn; split;
    solve [ intros; discriminate
          | intros [[?|[?|?]] ?]; discriminate
          | intros _; split; auto ].
Qed.

(** No mask is asked for a mask-free operation, nor once a mask is
    there. *)
Lemma needsMask_false (m : string) (p : FIBOParams) (h : bool) :
  mask_free (operation (mockAgentResponse m p h)) \/ h = true ->
  needsMask (mockAgentResponse m p h) = false.
Proof.
  rewrite mock_needsMask.
  generalize (operation (mockAgentResponse m p h)) as o.
  unfold mask_free.
  intros o [[-> | [-> | ->]] | ->]; [reflexivity .. |].
  apply andb_false_r.
Qed.

(* ================================================================== *)
(** ** The edit mode *)

(** C6.  For every input, [edit_mode] of the returned params is "mask"
    exactly when the returned operation is one of the three inpaint
    variants, and "full" exactly when it is one of the other three. *)
Theorem edit_mode_matches_operation
  (m : string) (p : FIBOParams) (h : bool) :
  (edit_mode (params (mockAgentResponse m p h)) = Some "mask"
   <-> inpaint_class (operation (mockAgentResponse m p h)))
  /\ (edit_mode (params (mockAgentResponse m p h)) = Some "full"
      <-> mask_free (operation (mockAgentResponse m p h))).
Proof.
  rewrite mock_params. cbn [set_edit_mode edit_mode].
  generalize (operation (mockAgentResponse m p h)) as o.
  unfold inpaint_class, mask_free.
  intros o; destruct o; cbn; split; split;
    solve [ intros; discriminate
          | intros [?|[?|?]]; discriminate
          | auto ].
Qed.

(* ================================================================== *)
(** ** The fields the resolver never writes *)

(** The fields that no step assigns. *)
Lemma resolver_frame (m : string) (p : FIBOParams) (h : bool) :
  pitch (camera (params (mockAgentResponse m p h))) = pitch (camera p)
  /\ roll (camera (params (mockAgentResponse m p h))) = roll (camera p)
  /\ composition (params (mockAgentResponse m p h)) = composition p
  /\ realism_level (params (mockAgentResponse m p h)) = realism_level p
  /\ output_format (params (mockAgentResponse m p h)) = output_format p.
Proof.
  rewrite mock_camera.
  destruct (parse_camera_frame (Js.toLowerCase m) p) as (-> & -> & _).
  rewrite mock_params.
  cbn [set_edit_mode composition realism_level output_format].
  set (lo := Js.toLowerCase m).
  set (q := updatedParams (classify m lo h (initial m p))).
  destruct (parse_color_frame lo (parse_lighting lo (parse_camera lo q)))
    as (_ & _ & -> & _ & _ & -> & ->).
  destruct (parse_lighting_frame lo (parse_camera lo q))
    as (_ & _ & -> & _ & _ & -> & ->).
  destruct (parse_camera_frame lo q)
    as (_ & _ & _ & _ & -> & _ & _ & -> & ->).
  destruct (classify_passthrough m lo h (initial m p)) as (H1 & H2 & H3).
  cbn [initial updatedParams] in H1, H2, H3. subst q.
  rewrite H1, H2, H3. repeat split; reflexivity.
Qed.

(** C9.  For every message, params and mask flag, [camera.pitch],
    [camera.roll], [composition], [realism_level] and [output_format] of
    the returned params are those of the input: the resolver writes
    [camera.yaw], [camera.fov], [lighting], [color_palette],
    [subject_description] and [edit_mode] only.  So the vertical
    instructions "tilt up" and "look down" change neither pitch nor
    roll. *)
Theorem untouched_fields (m : string) (p : FIBOParams) (h : bool) :
  (pitch (camera (params (mockAgentResponse m p h))) = pitch (camera p)
   /\ roll (camera (params (mockAgentResponse m p h))) = roll (camera p)
   /\ composition (params (mockAgentResponse m p h)) = composition p
   /\ realism_level (params (mockAgentResponse m p h)) = realism_level p
   /\ output_format (params (mockAgentResponse m p h)) = output_format p)
  /\ (pitch (camera (params (mockAgentResponse "tilt up" p h)))
      = pitch (camera p)
      /\ roll (camera (params (mockAgentResponse "tilt up" p h)))
         = roll (camera p)
      /\ pitch (camera (params (mockAgentResponse "look down" p h)))
         = pitch (camera p)
      /\ roll (camera (params (mockAgentResponse "look down" p h)))
         = roll (camera p)).
Proof.
  split; [apply resolver_frame |].
  pose proof (resolver_frame "tilt up" p h) as (? & ? & _).
  pose proof (resolver_frame "look down" p h) as (? & ? & _).
  auto.
Qed.

(* ================================================================== *)
(** ** The camera clamp *)

Lemma parse_camera_in_bounds (lo : string) (p : FIBOParams) :
  yaw_fov_in_bounds (camera p) ->
  yaw_fov_in_bounds (camera (parse_camera lo p)).
Proof.
  unfold yaw_fov_in_bounds, parse_camera, zoom_out, zoom_in, turn_right,
    turn_left.
  intros [Hy Hf]. split_ifs; lia.
Qed.

(** C5.  For every input whose [yaw] lies in [-180, 180] and whose [fov]
    lies in [10, 120], the camera fields returned by the rule-based
    resolver lie in these ranges again; and "rotate hard left" on a yaw
    of -170 returns a yaw of -180. *)
Theorem camera_stays_in_bounds (m : string) (p : FIBOParams) (h : bool) :
  yaw_fov_in_bounds (camera p) ->
  yaw_fov_in_bounds (camera (params (mockAgentResponse m p h)))
  /\ (yaw (camera p) = -170 ->
      yaw (camera (params (mockAgentResponse "rotate hard left" p false)))
      = -180).
Proof.
  intros Hb. split.
  - rewrite mock_camera. apply parse_camera_in_bounds, Hb.
  - intros Hy. destruct p as [[y pi ro fo] li co cm em su re ou].
    cbn in Hy. subst y. vm_compute. reflexivity.
Qed.

Lemma camera_stays_in_bounds_witness :
  yaw_fov_in_bounds (camera yaw_minus_170)
  /\ yaw_fov_in_bounds
       (camera (params (mockAgentResponse "rotate hard left" yaw_minus_170
                          false)))
  /\ yaw (camera (params (mockAgentResponse "rotate hard left" yaw_minus_170
                            false))) = -180.
Proof.
  assert (Hb : yaw_fov_in_bounds (camera yaw_minus_170))
    by (unfold yaw_fov_in_bounds; cbn; lia).
  split; [exact Hb |].
  destruct (camera_stays_in_bounds "rotate hard left" yaw_minus_170 false Hb)
    as [H1 H2].
  split; [exact H1 | apply H2; reflexivity].
Defined.

(* ================================================================== *)
(** ** The lighting and color scans *)

Lemma parse_lighting_last_match (lo : string) (p : FIBOParams) :
  lighting (parse_lighting lo p)
  = match last_match lo lighting_checks with
    | Some v => v
    | None => lighting p
    end.
Proof.
  unfold parse_lighting, last_match, lighting_checks, matches_check. cbn.
  destruct (Js.includes lo "dramatic"), (Js.includes lo "soft"),
    (Js.includes lo "natural"), (Js.includes lo "daylight"),
    (Js.includes lo "neon"); reflexivity.
Qed.

Lemma parse_color_last_match (lo : string) (p : FIBOParams) :
  color_palette (parse_color lo p)
  = match last_match lo color_checks with
    | Some v => Some v
    | None => color_palette p
    end.
Proof.
  unfold parse_color, last_match, color_checks, matches_check. cbn.
  destruct (Js.includes lo "warm"), (Js.includes lo "cool"),
    (Js.includes lo "cold"), (Js.includes lo "vibrant"); reflexivity.
Qed.

Lemma mock_lighting (m : string) (p : FIBOParams) (h : bool) :
  lighting (params (mockAgentResponse m p h))
  = lighting (parse_lighting (Js.toLowerCase m) p).
Proof.
  rewrite mock_params. cbn [set_edit_mode lighting].
  set (lo := Js.toLowerCase m).
  set (q := updatedParams (classify m lo h (initial m p))).
  destruct (parse_color_frame lo (parse_lighting lo (parse_camera lo q)))
    as (_ & -> & _).
  rewrite !parse_lighting_last_match.
  destruct (parse_camera_frame lo q) as (_ & _ & -> & _).
  subst q. rewrite classify_lighting. reflexivity.
Qed.

Lemma mock_color_palette (m : string) (p : FIBOParams) (h : bool) :
  color_palette (params (mockAgentResponse m p h))
  = color_palette (parse_color (Js.toLowerCase m) p).
Proof.
  rewrite mock_params. cbn [set_edit_mode color_palette].
  set (lo := Js.toLowerCase m).
  set (q := updatedParams (classify m lo h (initial m p))).
  rewrite !parse_color_last_match.
  destruct (parse_lighting_frame lo (parse_camera lo q)) as (_ & -> & _).
  destruct (parse_camera_frame lo q) as (_ & _ & _ & -> & _).
  subst q. rewrite classify_color_palette. reflexivity.
Qed.

(** C7.  The lighting returned by the rule-based resolver is the value of
    the last check that matches, in the order dramatic, soft,
    natural/daylight, neon, and the input's lighting when none matches;
    the color palette likewise, in the order warm, cool/cold, vibrant.
    So a message with "dramatic" and "soft" and no later keyword yields
    studio_soft, and a message with "soft" and "neon" yields neon. *)
Theorem keyword_scans_last_wins (m : string) (p : FIBOParams) (h : bool) :
  let lower := Js.toLowerCase m in
  let r := mockAgentResponse m p h in
  lighting (params r)
  = match last_match lower lighting_checks with
    | Some v => v
    | None => lighting p
    end
  /\ color_palette (params r)
     = match last_match lower color_checks with
       | Some v => Some v
       | None => color_palette p
       end
  /\ (Js.includes lower "dramatic" = true ->
      Js.includes lower "soft" = true ->
      Js.includes lower "natural" = false ->
      Js.includes lower "daylight" = false ->
      Js.includes lower "neon" = false ->
      lighting (params r) = "studio_soft")
  /\ (Js.includes lower "soft" = true ->
      Js.includes lower "neon" = true ->
      lighting (params r) = "neon").
Proof.
  cbv zeta.
  rewrite mock_lighting, mock_color_palette, parse_lighting_last_match,
    parse_color_last_match.
  repeat split; try reflexivity.
  - intros H1 H2 H3 H4 H5.
    unfold last_match, lighting_checks, matches_check; cbn.
    rewrite H1, H2, H3, H4, H5. reflexivity.
  - intros H1 H2.
    unfold last_match, lighting_checks, matches_check; cbn.
    rewrite H1, H2.
    destruct (Js.includes (Js.toLowerCase m) "dramatic"),
      (Js.includes (Js.toLowerCase m) "natural"),
      (Js.includes (Js.toLowerCase m) "daylight"); reflexivity.
Qed.

Lemma keyword_scans_last_wins_witness :
  lighting (params (mockAgentResponse "Dramatic but soft"
                      DEFAULT_FIBO_PARAMS false)) = "studio_soft"
  /\ lighting (params (mockAgentResponse "soft neon glow"
                         DEFAULT_FIBO_PARAMS false)) = "neon".
Proof.
  split.
  - destruct (keyword_scans_last_wins "Dramatic but soft"
                DEFAULT_FIBO_PARAMS false) as (_ & _ & H & _).
    apply H; vm_compute; reflexivity.
  - destruct (keyword_scans_last_wins "soft neon glow"
                DEFAULT_FIBO_PARAMS false) as (_ & _ & _ & H).
    apply H; vm_compute; reflexivity.
Defined.

(* ================================================================== *)
(** ** Classification *)

Import JsFacts RegexSpec RegexFacts.

Lemma classify_replace (um lo : string) (h : bool) (l : Locals) :
  Regex.test Pat.removal lo = false ->
  Regex.test Pat.replace lo = true ->
  l_operation (classify um lo h l) = inpaint_replace.
Proof.
  intros H1 H2. unfold classify. rewrite H1, H2.
  destruct (Regex.exec Pat.replace_parts lo); reflexivity.
Qed.

Lemma classify_add (um lo : string) (h : bool) (l : Locals) :
  Regex.test Pat.removal lo = false ->
  Regex.test Pat.replace lo = false ->
  Regex.test Pat.add lo = true ->
  classify um lo h l
  = let subject :=
      match Regex.exec Pat.add_object lo with
      | Some g => Js.trim (group g 1)
      | None => um
      end in
    {| l_operation := if h then inpaint_add else style_transfer;
       l_prompt := "Add " ++ subject ++ " in the marked area, blend seamlessly";
       l_response :=
         "✨ I'll add " ++ dquote ++ subject ++ dquote
           ++ " to the marked area. Click Generate!";
       updatedParams := set_subject_description subject (updatedParams l) |}.
Proof.
  intros H1 H2 H3. unfold classify. rewrite H1, H2, H3. reflexivity.
Qed.

(** The later steps keep the subject that classification has set. *)
Lemma mock_subject_description (m : string) (p : FIBOParams) (h : bool) :
  subject_description (params (mockAgentResponse m p h))
  = subject_description
      (updatedParams (classify m (Js.toLowerCase m) h (initial m p))).
Proof.
  rewrite mock_params. cbn [set_edit_mode subject_description].
  set (lo := Js.toLowerCase m).
  set (q := updatedParams (classify m lo h (initial m p))).
  destruct (parse_color_frame lo (parse_lighting lo (parse_camera lo q)))
    as (_ & _ & _ & _ & -> & _).
  destruct (parse_lighting_frame lo (parse_camera lo q))
    as (_ & _ & _ & _ & -> & _).
  destruct (parse_camera_frame lo q) as (_ & _ & _ & _ & _ & _ & -> & _).
  reflexivity.
Qed.

(** What the whole-word patterns of the branches test: one of their
    keywords occurs in the text as a whole word.  The replace pattern is
    read by [test_replace]. *)
Lemma removal_pattern_meaning (s : string) :
  Regex.test Pat.removal s = true
  <-> exists w, In w Pat.removal_verbs /\ occurs_as_word w s.
Proof. apply test_whole_word. discriminate. Qed.

Lemma add_pattern_meaning (s : string) :
  Regex.test Pat.add s = true
  <-> exists w, In w Pat.add_verbs /\ occurs_as_word w s.
Proof. apply test_whole_word. discriminate. Qed.

(** The replace branch is taken when the removal pattern does not match
    and the replace pattern does. *)
Lemma replace_pattern_classified (m : string) (p : FIBOParams) (h : bool) :
  Regex.test Pat.removal (Js.toLowerCase m) = false ->
  Regex.test Pat.replace (Js.toLowerCase m) = true ->
  operation (mockAgentResponse m p h) = inpaint_replace.
Proof.
  intros H1 H2. rewrite mock_operation. apply classify_replace; assumption.
Qed.

(** C3, as the code has it.  For every message whose lower-cased text
    reads [pre ++ v ++ mid ++ c ++ post], with [v] a replace-verb and [c]
    a connector, both as whole words, and no line terminator in [mid],
    and in which no removal keyword occurs as a whole word, the
    rule-based resolver classifies inpaint_replace, whatever [hasMask]
    is. *)
Theorem replace_verb_then_connector
  (m : string) (p : FIBOParams) (h : bool)
  (v c : string) (pre mid post : list ascii) :
  In v Pat.replace_verbs ->
  In c Pat.connectors ->
  list_ascii_of_string (Js.toLowerCase m)
  = (pre ++ list_ascii_of_string v ++ mid
       ++ list_ascii_of_string c ++ post)%list ->
  word_at pre (list_ascii_of_string v)
    (mid ++ list_ascii_of_string c ++ post)%list ->
  same_line mid ->
  word_at (pre ++ list_ascii_of_string v ++ mid)%list
    (list_ascii_of_string c) post ->
  (forall w, In w Pat.removal_verbs ->
             ~ occurs_as_word w (Js.toLowerCase m)) ->
  operation (mockAgentResponse m p h) = inpaint_replace.
Proof.
  intros Hv Hc Hs Hwv Hmid Hwc Hrem.
  apply replace_pattern_classified.
  - destruct (Regex.test Pat.removal (Js.toLowerCase m)) eqn:E;
      [|reflexivity].
    apply removal_pattern_meaning in E as (w & Hw & Ho).
    destruct (Hrem w Hw Ho).
  - apply test_replace. exists v, c, pre, mid, post. auto 10.
Qed.

Lemma replace_verb_then_connector_witness :
  operation (mockAgentResponse "Replace the sky with a sunset"
               DEFAULT_FIBO_PARAMS false) = inpaint_replace.
Proof.
  apply (replace_verb_then_connector "Replace the sky with a sunset"
           DEFAULT_FIBO_PARAMS false "replace" "with" []
           (list_ascii_of_string " the sky ")
           (list_ascii_of_string " a sunset")).
  - vm_compute. auto.
  - vm_compute. auto 10.
  - vm_compute. reflexivity.
  - vm_compute. auto.
  - vm_compute. repeat constructor.
  - vm_compute. auto.
  - intros w Hw Ho.
    assert (E : Regex.test Pat.removal
                  (Js.toLowerCase "Replace the sky with a sunset") = true).
    { apply removal_pattern_meaning. eauto. }
    vm_compute in E. discriminate E.
Defined.

(** C3, as stated, fails.  In each of the three messages a replace-verb
    and a connector occur as whole words.  The first matches the removal
    pattern, which is tried first; in the second the connector comes
    before the verb; in the third a line feed separates the verb from
    the connector.  In the last two the replace pattern does not
    match. *)
Lemma replace_words_not_enough :
  let m1 := "remove the car and replace it with a bike" in
  let m2 := "with care, convert the colors" in
  let m3 := "replace the sky" ++ newline ++ "with a sunset" in
  (occurs_as_word "replace" (Js.toLowerCase m1)
   /\ occurs_as_word "with" (Js.toLowerCase m1)
   /\ operation (mockAgentResponse m1 DEFAULT_FIBO_PARAMS true)
      = inpaint_remove)
  /\ (occurs_as_word "convert" (Js.toLowerCase m2)
      /\ occurs_as_word "with" (Js.toLowerCase m2)
      /\ operation (mockAgentResponse m2 DEFAULT_FIBO_PARAMS true)
         = style_transfer)
  /\ (occurs_as_word "replace" (Js.toLowerCase m3)
      /\ occurs_as_word "with" (Js.toLowerCase m3)
      /\ operation (mockAgentResponse m3 DEFAULT_FIBO_PARAMS true)
         = style_transfer).
Proof.
  cbv zeta. repeat split.
  - exists (list_ascii_of_string "remove the car and "),
      (list_ascii_of_string " it with a bike"). vm_compute. auto.
  - exists (list_ascii_of_string "remove the car and replace it "),
      (list_ascii_of_string " a bike"). vm_compute. auto.
  - exists (list_ascii_of_string "with care, "),
      (list_ascii_of_string " the colors"). vm_compute. auto.
  - exists [], (list_ascii_of_string " care, convert the colors").
    vm_compute. auto.
  - exists [],
      (list_ascii_of_string (" the sky" ++ newline ++ "with a sunset")).
    vm_compute. auto.
  - exists (list_ascii_of_string ("replace the sky" ++ newline)),
      (list_ascii_of_string " a sunset"). vm_compute. auto.
Qed.

(** C4.  For a message whose lower-cased text matches the add pattern and
    neither the removal nor the replace pattern, the rule-based resolver
    classifies inpaint_add when [hasMask] is true and style_transfer when
    it is false; so "add flowers here" is style_transfer without a mask
    and inpaint_add with one, whatever the params. *)
Theorem add_depends_on_mask (m : string) (p : FIBOParams) (h : bool) :
  Regex.test Pat.add (Js.toLowerCase m) = true ->
  Regex.test Pat.removal (Js.toLowerCase m) = false ->
  Regex.test Pat.replace (Js.toLowerCase m) = false ->
  operation (mockAgentResponse m p h)
  = (if h then inpaint_add else style_transfer)
  /\ operation (mockAgentResponse "add flowers here" p false)
     = style_transfer
  /\ operation (mockAgentResponse "add flowers here" p true) = inpaint_add.
Proof.
  intros H1 H2 H3. split.
  - rewrite mock_operation, classify_add by assumption. reflexivity.
  - split; rewrite mock_operation, classify_add
      by (vm_compute; reflexivity); reflexivity.
Qed.

Lemma add_depends_on_mask_witness :
  operation (mockAgentResponse "add flowers here" DEFAULT_FIBO_PARAMS false)
  = style_transfer
  /\ operation (mockAgentResponse "add flowers here" DEFAULT_FIBO_PARAMS true)
     = inpaint_add.
Proof.
  split.
  - apply (add_depends_on_mask "add flowers here" DEFAULT_FIBO_PARAMS false);
      vm_compute; reflexivity.
  - apply (add_depends_on_mask "add flowers here" DEFAULT_FIBO_PARAMS true);
      vm_compute; reflexivity.
Defined.

(** C10, as the code has it.  For every message whose lower-cased text
    matches the add pattern and neither the removal nor the replace
    pattern, with [hasMask] false, the rule-based resolver classifies
    style_transfer and asks for no mask, yet the prompt is "Add {phrase}
    in the marked area, blend seamlessly" and the response is the add
    branch's, not overridden by the mask gate; both mention the marked
    area.  {phrase} is the object phrase that the branch stores as
    [subject_description]. *)
Theorem add_without_mask_mentions_marked_area
  (m : string) (p : FIBOParams) :
  Regex.test Pat.add (Js.toLowerCase m) = true ->
  Regex.test Pat.removal (Js.toLowerCase m) = false ->
  Regex.test Pat.replace (Js.toLowerCase m) = false ->
  operation (mockAgentResponse m p false) = style_transfer
  /\ needsMask (mockAgentResponse m p false) = false
  /\ subject_description (params (mockAgentResponse m p false))
     = Some (add_phrase m)
  /\ prompt (mockAgentResponse m p false)
     = "Add " ++ add_phrase m ++ " in the marked area, blend seamlessly"
  /\ response (mockAgentResponse m p false)
     = "✨ I'll add " ++ dquote ++ add_phrase m ++ dquote
         ++ " to the marked area. Click Generate!"
  /\ Js.includes (prompt (mockAgentResponse m p false)) "marked area" = true
  /\ Js.includes (response (mockAgentResponse m p false)) "marked area"
     = true.
Proof.
  intros H1 H2 H3.
  assert (Ho : operation (mockAgentResponse m p false) = style_transfer).
  { rewrite mock_operation, classify_add by assumption. reflexivity. }
  assert (Hn : needsMask (mockAgentResponse m p false) = false).
  { rewrite mock_needsMask, Ho. reflexivity. }
  assert (Hp : prompt (mockAgentResponse m p false)
               = "Add " ++ add_phrase m
                   ++ " in the marked area, blend seamlessly").
  { rewrite mock_prompt, classify_add by assumption. reflexivity. }
  assert (Hr : response (mockAgentResponse m p false)
               = "✨ I'll add " ++ dquote ++ add_phrase m ++ dquote
                   ++ " to the marked area. Click Generate!").
  { rewrite mock_response, Hn, classify_add by assumption. reflexivity. }
  repeat split.
  - exact Ho.
  - exact Hn.
  - rewrite mock_subject_description, classify_add by assumption.
    reflexivity.
  - exact Hp.
  - exact Hr.
  - rewrite Hp. do 2 apply includes_append_r. vm_compute. reflexivity.
  - rewrite Hr. do 4 apply includes_append_r. vm_compute. reflexivity.
Qed.

Lemma add_without_mask_mentions_marked_area_witness :
  prompt (mockAgentResponse "Add some flowers on the table"
            DEFAULT_FIBO_PARAMS false)
  = "Add flowers in the marked area, blend seamlessly"
  /\ operation (mockAgentResponse "Add some flowers on the table"
                  DEFAULT_FIBO_PARAMS false) = style_transfer.
Proof.
  destruct (add_without_mask_mentions_marked_area
              "Add some flowers on the table" DEFAULT_FIBO_PARAMS)
    as (Ho & _ & _ & Hp & _); try (vm_compute; reflexivity).
  split; [| exact Ho].
  rewrite Hp. vm_compute. reflexivity.
Defined.

(** C10, as stated, fails.  The message matches the add pattern and there
    is no mask, but the removal branch comes first: the operation is
    inpaint_remove, a mask is asked for, and the prompt is the removal
    prompt. *)
Lemma add_pattern_not_enough :
  let m := "remove the tree and add flowers" in
  let r := mockAgentResponse m DEFAULT_FIBO_PARAMS false in
  Regex.test Pat.add (Js.toLowerCase m) = true
  /\ operation r = inpaint_remove
  /\ needsMask r = true
  /\ prompt r
     = "Remove tree and add flowers from the marked area and fill with natural background".
Proof. vm_compute. repeat split. Qed.

(* ================================================================== *)
(** * Properties of the model-backed resolver *)

Lemma valid_operation_names (s : string) :
  array_includes validOperations s = true <-> exists o, s = op_name o.
Proof.
  unfold array_includes, validOperations. cbn. split.
  - rewrite !orb_true_iff, !String.eqb_eq.
    intros [H|[H|[H|[H|[H|[H|H]]]]]]; try discriminate H.
    + exists inpaint_remove; exact H.
    + exists inpaint_replace; exact H.
    + exists inpaint_add; exact H.
    + exists style_transfer; exact H.
    + exists generate_new; exact H.
    + exists camera_adjust; exact H.
  - intros [o ->]. destruct o; reflexivity.
Qed.

Lemma includes_value_valid (x : option json) :
  includes_value validOperations x = true <-> valid_tag x.
Proof.
  unfold valid_tag, includes_value.
  destruct x as [[| | |s| |]|];
    try (split; [discriminate | intros [o Ho]; discriminate Ho]).
  rewrite valid_operation_names. split.
  - intros [o ->]. exists o. reflexivity.
  - intros [o Ho]. exists o. congruence.
Qed.

Lemma checked_operation_valid (x : option json) (mask : bool) :
  valid_tag x -> x = Some (checked_operation x mask).
Proof.
  intros Hv. unfold checked_operation.
  apply includes_value_valid in Hv as Hi. rewrite Hi.
  destruct Hv as [o ->]. reflexivity.
Qed.

Lemma checked_operation_default (x : option json) (mask : bool) :
  ~ valid_tag x ->
  checked_operation x mask
  = JStr (op_name (if mask then inpaint_replace else style_transfer)).
Proof.
  intros Hn. unfold checked_operation.
  destruct (includes_value validOperations x) eqn:Hi.
  - exfalso. apply Hn, includes_value_valid, Hi.
  - destruct x, mask; reflexivity.
Qed.

Lemma checked_operation_in_enum (x : option json) (mask : bool) :
  exists o, checked_operation x mask = JStr (op_name o).
Proof.
  destruct (includes_value validOperations x) eqn:Hi.
  - apply includes_value_valid in Hi.
    pose proof (checked_operation_valid x mask Hi) as Hx.
    destruct Hi as [o Ho]. exists o. congruence.
  - eexists. apply checked_operation_default.
    intros Hv. apply includes_value_valid in Hv. congruence.
Qed.

(** From a parsed body other than [null] the result is built, and its
    operation is the checked one. *)
Lemma validate_operation (parsed : json) (mask : bool) :
  match validate parsed mask with
  | Returned r =>
      r_operation r = checked_operation (get parsed "operation") mask
  | Thrown _ => parsed = JNull
  end.
Proof. destruct parsed; reflexivity. Qed.

(** C2.  Once the service has yielded a parsed body, [callOpenAI] returns
    for every parsed value but [null] (where reading the tag throws), and
    the operation that it returns is one of the six names: the parsed tag
    when that is one of them, and otherwise (tag absent or not in the
    set) inpaint_replace when [hasMask] is true and style_transfer when
    it is false. *)
Theorem operation_tag_validated
  (service : FIBOParams -> bool -> string -> outcome json)
  (current : FIBOParams) (mask : bool) (message : string) (parsed : json) :
  service current mask message = Returned parsed ->
  match snd (callOpenAI service current mask message) with
  | Returned r =>
      (exists o, r_operation r = JStr (op_name o))
      /\ (valid_tag (get parsed "operation") ->
          get parsed "operation" = Some (r_operation r))
      /\ (~ valid_tag (get parsed "operation") ->
          r_operation r
          = JStr (op_name (if mask then inpaint_replace else style_transfer)))
  | Thrown _ => parsed = JNull
  end.
Proof.
  intros Hs. unfold callOpenAI. rewrite Hs.
  pose proof (validate_operation parsed mask) as Hv.
  destruct (validate parsed mask) as [r | e]; cbn [snd]; [| exact Hv].
  rewrite Hv. split; [apply checked_operation_in_enum |].
  split; [apply checked_operation_valid | apply checked_operation_default].
Qed.

Lemma operation_tag_validated_witness :
  ~ valid_tag (get unknown_tag "operation")
  /\ exists r,
       snd (callOpenAI service_unknown_tag DEFAULT_FIBO_PARAMS true
              "make it pop") = Returned r
       /\ r_operation r = JStr "inpaint_replace".
Proof.
  assert (Hn : ~ valid_tag (get unknown_tag "operation")).
  { intros [o Ho]. destruct o; discriminate Ho. }
  split; [exact Hn |].
  pose proof (operation_tag_validated service_unknown_tag
                DEFAULT_FIBO_PARAMS true "make it pop" unknown_tag eq_refl)
    as H.
  destruct (snd (callOpenAI service_unknown_tag DEFAULT_FIBO_PARAMS true
                   "make it pop")) as [r | e].
  - exists r. split; [reflexivity |].
    destruct H as (_ & _ & H). exact (H Hn).
  - discriminate H.
Defined.

(* ================================================================== *)
(** * Properties of the request handler *)

(** C8.  A request whose [userMessage] is missing or the empty string is
    answered with status 400 and the payload [{ error: 'User message is
    required' }], whatever the key and the service: nothing is written to
    the console, so neither resolver has run, and the answer carries no
    resolver result.  A failure of the external service is answered with
    status 500 and another payload. *)
Theorem empty_message_rejected
  (service : FIBOParams -> bool -> string -> outcome json)
  (req : AgentRequest) (key : option string) :
  userMessage req = None \/ userMessage req = Some EmptyString ->
  POST service (Returned req) key
  = ([], mkHttp 400 (ErrorBody "User message is required"))
  /\ forall (req' : AgentRequest) (key' : option string) (c : ascii)
       (msg e : string),
       userMessage req' = Some (String c msg) ->
       Js.truthy key' = true ->
       service (currentParams req') (hasMask req') (String c msg) = Thrown e ->
       status (snd (POST service (Returned req') key')) = 500
       /\ snd (POST service (Returned req') key')
          <> snd (POST service (Returned req) key).
Proof.
  intros Hm.
  assert (H400 : POST service (Returned req) key
                 = ([], mkHttp 400 (ErrorBody "User message is required"))).
  { unfold POST. destruct Hm as [-> | ->]; reflexivity. }
  split; [exact H400 |].
  intros req' key' c msg e Hu Hk Hs.
  rewrite H400. unfold POST, callOpenAI. rewrite Hu, Hk, Hs. cbn.
  split; [reflexivity | discriminate].
Qed.

Lemma empty_message_rejected_witness :
  POST service_down
    (Returned (mkRequest (Some EmptyString) DEFAULT_FIBO_PARAMS false)) None
  = ([], mkHttp 400 (ErrorBody "User message is required"))
  /\ status
       (snd (POST service_down
               (Returned (mkRequest (Some "make it warm")
                            DEFAULT_FIBO_PARAMS false))
               (Some "secret"))) = 500.
Proof.
  destruct (empty_message_rejected service_down
              (mkRequest (Some EmptyString) DEFAULT_FIBO_PARAMS false) None
              (or_intror eq_refl)) as [H1 H2].
  split; [exact H1 |].
  apply (H2 (mkRequest (Some "make it warm") DEFAULT_FIBO_PARAMS false)
            (Some "secret") "m"%char "ake it warm" "fetch failed");
    reflexivity.
Defined.

(* ================================================================== *)
(** * Further properties of the rule-based resolver *)

Lemma classify_removal (um lo : string) (h : bool) (l : Locals) :
  Regex.test Pat.removal lo = true ->
  classify um lo h l
  = let subject :=
      match Regex.exec Pat.removal_object lo with
      | Some g => Js.trim (group g 1)
      | None => um
      end in
    {| l_operation := inpaint_remove;
       l_prompt :=
         "Remove " ++ subject
           ++ " from the marked area and fill with natural background";
       l_response :=
         "🗑️ I'll remove " ++ dquote ++ subject ++ dquote
           ++ " from the marked area. Click Generate!";
       updatedParams := set_subject_description subject (updatedParams l) |}.
Proof. intros H. unfold classify. rewrite H. reflexivity. Qed.

(** X1.  A removal keyword that occurs as a whole word decides the
    classification, whatever else the message says: the operation is
    inpaint_remove, the edit mode is "mask", a mask is asked for exactly
    when none is drawn, and the prompt names the subject that is
    stored. *)
Theorem removal_keyword_wins
  (m : string) (p : FIBOParams) (h : bool) (w : string) :
  In w Pat.removal_verbs ->
  occurs_as_word w (Js.toLowerCase m) ->
  operation (mockAgentResponse m p h) = inpaint_remove
  /\ needsMask (mockAgentResponse m p h) = negb h
  /\ edit_mode (params (mockAgentResponse m p h)) = Some "mask"
  /\ prompt (mockAgentResponse m p h)
     = "Remove " ++ subject_text (params (mockAgentResponse m p h))
         ++ " from the marked area and fill with natural background".
Proof.
  intros Hw Ho.
  assert (Ht : Regex.test Pat.removal (Js.toLowerCase m) = true).
  { apply removal_pattern_meaning. eauto. }
  assert (Hop : operation (mockAgentResponse m p h) = inpaint_remove).
  { rewrite mock_operation, classify_removal by exact Ht. reflexivity. }
  repeat split.
  - exact Hop.
  - rewrite mock_needsMask, Hop. reflexivity.
  - rewrite mock_params, Hop. reflexivity.
  - unfold subject_text.
    rewrite mock_subject_description, mock_prompt, classify_removal
      by exact Ht.
    reflexivity.
Qed.

Lemma removal_keyword_wins_witness :
  operation (mockAgentResponse "Please DELETE the lamp, then add a chair"
               DEFAULT_FIBO_PARAMS true) = inpaint_remove.
Proof.
  apply (removal_keyword_wins "Please DELETE the lamp, then add a chair"
           DEFAULT_FIBO_PARAMS true "delete").
  - vm_compute. auto.
  - exists (list_ascii_of_string "please "),
      (list_ascii_of_string " the lamp, then add a chair").
    vm_compute. auto.
Defined.

(** The operation that classification yields depends on the lower-cased
    text and the mask flag only. *)
Lemma classify_operation (um1 um2 lo : string) (h : bool) (l1 l2 : Locals) :
  l_operation (classify um1 lo h l1) = l_operation (classify um2 lo h l2).
Proof.
  unfold classify.
  destruct (Regex.test Pat.removal lo); [reflexivity|].
  destruct (Regex.test Pat.replace lo).
  { destruct (Regex.exec Pat.replace_parts lo); reflexivity. }
  destruct (Regex.test Pat.add lo); [reflexivity|].
  destruct (Regex.test Pat.camera_words lo
            && negb (Regex.test Pat.not_camera_only lo)); [reflexivity|].
  destruct (Regex.test Pat.creation lo && negb h); reflexivity.
Qed.

(** X2.  The resolver returns inpaint_add only when a mask is drawn and
    generate_new only when none is; so it asks for a mask only for
    inpaint_remove and inpaint_replace. *)
Theorem add_only_with_mask (m : string) (p : FIBOParams) (h : bool) :
  (operation (mockAgentResponse m p h) = inpaint_add -> h = true)
  /\ (operation (mockAgentResponse m p h) = generate_new -> h = false)
  /\ (needsMask (mockAgentResponse m p h) = true ->
      operation (mockAgentResponse m p h) = inpaint_remove
      \/ operation (mockAgentResponse m p h) = inpaint_replace).
Proof.
  assert (Ha : operation (mockAgentResponse m p h) = inpaint_add -> h = true).
  { rewrite mock_operation. unfold classify.
    destruct (Regex.test Pat.removal (Js.toLowerCase m)); [discriminate|].
    destruct (Regex.test Pat.replace (Js.toLowerCase m)).
    { destruct (Regex.exec Pat.replace_parts (Js.toLowerCase m));
        discriminate. }
    destruct (Regex.test Pat.add (Js.toLowerCase m)).
    { destruct h; [reflexivity | discriminate]. }
    destruct (Regex.test Pat.camera_words (Js.toLowerCase m)
              && negb (Regex.test Pat.not_camera_only (Js.toLowerCase m)));
      [discriminate|].
    destruct (Regex.test Pat.creation (Js.toLowerCase m) && negb h);
      discriminate. }
  split; [exact Ha | split].
  - rewrite mock_operation. unfold classify.
    destruct (Regex.test Pat.removal (Js.toLowerCase m)); [discriminate|].
    destruct (Regex.test Pat.replace (Js.toLowerCase m)).
    { destruct (Regex.exec Pat.replace_parts (Js.toLowerCase m));
        discriminate. }
    destruct (Regex.test Pat.add (Js.toLowerCase m)).
    { destruct h; discriminate. }
    destruct (Regex.test Pat.camera_words (Js.toLowerCase m)
              && negb (Regex.test Pat.not_camera_only (Js.toLowerCase m)));
      [discriminate|].
    destruct (Regex.test Pat.creation (Js.toLowerCase m)), h;
      cbn; try discriminate. reflexivity.
  - intros Hn. rewrite mock_needsMask in Hn.
    apply andb_true_iff in Hn as [Hi Hh].
    destruct (operation (mockAgentResponse m p h)) eqn:Ho;
      try discriminate Hi; auto.
    rewrite (Ha eq_refl) in Hh. discriminate Hh.
Qed.

(** X3.  The classification ignores case: two messages with the same
    lower-cased text get the same operation, mask request, camera,
    lighting, color palette and edit mode. *)
Theorem classification_ignores_case
  (m1 m2 : string) (p : FIBOParams) (h : bool) :
  Js.toLowerCase m1 = Js.toLowerCase m2 ->
  operation (mockAgentResponse m1 p h) = operation (mockAgentResponse m2 p h)
  /\ needsMask (mockAgentResponse m1 p h)
     = needsMask (mockAgentResponse m2 p h)
  /\ camera (params (mockAgentResponse m1 p h))
     = camera (params (mockAgentResponse m2 p h))
  /\ lighting (params (mockAgentResponse m1 p h))
     = lighting (params (mockAgentResponse m2 p h))
  /\ color_palette (params (mockAgentResponse m1 p h))
     = color_palette (params (mockAgentResponse m2 p h))
  /\ edit_mode (params (mockAgentResponse m1 p h))
     = edit_mode (params (mockAgentResponse m2 p h)).
Proof.
  intros Hl.
  assert (Ho : operation (mockAgentResponse m1 p h)
               = operation (mockAgentResponse m2 p h)).
  { rewrite !mock_operation, Hl. apply classify_operation. }
  repeat split.
  - exact Ho.
  - rewrite !mock_needsMask, Ho. reflexivity.
  - rewrite !mock_camera, Hl. reflexivity.
  - rewrite !mock_lighting, Hl. reflexivity.
  - rewrite !mock_color_palette, Hl. reflexivity.
  - rewrite !mock_params, Ho. reflexivity.
Qed.

Lemma classification_ignores_case_witness :
  operation (mockAgentResponse "ZOOM IN a bit" DEFAULT_FIBO_PARAMS false)
  = operation (mockAgentResponse "zoom in A BIT" DEFAULT_FIBO_PARAMS false).
Proof.
  apply (classification_ignores_case "ZOOM IN a bit" "zoom in A BIT"
           DEFAULT_FIBO_PARAMS false).
  vm_compute. reflexivity.
Defined.
(* ================================================================== *)
(** ** Sessions *)

Lemma parse_lighting_in_schema (lo : string) (p : FIBOParams) :
  In (lighting p) lighting_presets ->
  In (lighting (parse_lighting lo p)) lighting_presets.
Proof.
  intros H. unfold parse_lighting, lighting_presets. cbn.
  split_ifs; cbn; auto 10.
Qed.

Lemma parse_color_in_schema (lo : string) (p : FIBOParams) :
  (forall c, color_palette p = Some c -> In c color_palettes) ->
  forall c, color_palette (parse_color lo p) = Some c -> In c color_palettes.
Proof.
  intros H c. unfold parse_color, color_palettes. cbn.
  split_ifs; cbn; try (intros [= <-]; auto 10); apply H.
Qed.

(** The resolver keeps params within the schema. *)
Lemma resolver_in_schema (m : string) (p : FIBOParams) (h : bool) :
  in_schema p -> in_schema (params (mockAgentResponse m p h)).
Proof.
  intros ((Hy & Hp & Hr & Hf) & Hl & Hc & Hcomp & Hreal).
  destruct (resolver_frame m p h) as (Ep & Er & Ecomp & Ereal & _).
  pose proof (parse_camera_in_bounds (Js.toLowerCase m) p (conj Hy Hf))
    as [Hy' Hf'].
  rewrite <- (mock_camera m p h) in Hy', Hf'.
  unfold in_schema, camera_in_schema.
  rewrite Ep, Er, Ecomp, Ereal, mock_lighting.
  repeat split; try tauto; try lia.
  - apply parse_lighting_in_schema, Hl.
  - intros c. rewrite mock_color_palette. apply parse_color_in_schema, Hc.
Qed.

(** The resolver never unsets an optional field. *)
Lemma resolver_keeps_optional (m : string) (p : FIBOParams) (h : bool) :
  (color_palette (params (mockAgentResponse m p h)) = None ->
   color_palette p = None)
  /\ (subject_description (params (mockAgentResponse m p h)) = None ->
      subject_description p = None)
  /\ edit_mode (params (mockAgentResponse m p h)) <> None.
Proof.
  repeat split.
  - rewrite mock_color_palette. unfold parse_color. cbn.
    split_ifs; try discriminate. auto.
  - rewrite mock_subject_description.
    destruct (classify_params m (Js.toLowerCase m) h (initial m p))
      as [-> | [s ->]]; [auto | discriminate].
  - rewrite mock_params. discriminate.
Qed.

Lemma merge_same (p r : FIBOParams) :
  (color_palette r = None -> color_palette p = None) ->
  (subject_description r = None -> subject_description p = None) ->
  (edit_mode r = None -> edit_mode p = None) ->
  Studio.merge p r = r.
Proof.
  destruct r as [cam li co cm em su re ou]. unfold Studio.merge. cbn.
  intros Hc Hs He.
  destruct co, su, em; rewrite ?Hc, ?Hs, ?He; reflexivity.
Qed.

(** X4.  What the studio page keeps after a turn is what the resolver
    returned: merging the answer into the params that were sent changes
    nothing of the answer, since the resolver never unsets an optional
    field. *)
Theorem merge_keeps_resolver_params (m : string) (p : FIBOParams) (h : bool) :
  Studio.merge p (params (mockAgentResponse m p h))
  = params (mockAgentResponse m p h).
Proof.
  destruct (resolver_keeps_optional m p h) as (Hc & Hs & He).
  apply merge_same; [exact Hc | exact Hs |].
  intros E. destruct (He E).
Qed.

Lemma session_cons (t : string * bool) (turns : list (string * bool))
  (p : FIBOParams) :
  session (t :: turns) p = session turns (turn p t).
Proof. reflexivity. Qed.

Lemma turn_eq (p : FIBOParams) (t : string * bool) :
  turn p t = params (mockAgentResponse (fst t) p (snd t)).
Proof.
  destruct (resolver_keeps_optional (fst t) p (snd t)) as (Hc & Hs & He).
  apply merge_same; [exact Hc | exact Hs |].
  intros E. destruct (He E).
Qed.

(** X5.  A session keeps the params within the schema of the route:
    whatever the messages and mask flags of its turns, params that start
    with camera angles in range and with lighting, color palette,
    composition and realism level among the listed values end so. *)
Theorem session_stays_in_schema
  (turns : list (string * bool)) (p : FIBOParams) :
  in_schema p -> in_schema (session turns p).
Proof.
  revert p. induction turns as [|t turns IH]; intros p Hp; [exact Hp|].
  rewrite session_cons. apply IH. rewrite turn_eq.
  apply resolver_in_schema, Hp.
Qed.

Lemma default_in_schema : in_schema DEFAULT_FIBO_PARAMS.
Proof.
  unfold in_schema, camera_in_schema. cbn.
  repeat split; try lia; auto 10. discriminate.
Qed.

Lemma session_stays_in_schema_witness :
  in_schema
    (session [("rotate hard left", false); ("make it neon and warm", false);
              ("zoom out wider", true)] DEFAULT_FIBO_PARAMS).
Proof. apply session_stays_in_schema, default_in_schema. Defined.

(** *** Turning *)





(* ================================================================== *)
(** * Facts about [split], [join] and [replace] *)

Module JsLibFacts.
Import JsLib.

Lemma startsWith_empty (s : string) : Js.startsWith s EmptyString = true.
Proof. destruct s; reflexivity. Qed.

Lemma includes_char (c a : ascii) (t : string) :
  Js.includes (String a t) (String c EmptyString)
  = Ascii.eqb c a || Js.includes t (String c EmptyString).
Proof.
  rewrite includes_cons. cbn [Js.startsWith].
  rewrite startsWith_empty, andb_true_r. reflexivity.
Qed.

Lemma includes_char_empty (c : ascii) :
  Js.includes EmptyString (String c EmptyString) = false.
Proof. reflexivity. Qed.

Lemma split_cons (sep c : ascii) (t : string) :
  split sep (String c t)
  = if Ascii.eqb c sep then EmptyString :: split sep t
    else match split sep t with
         | h :: r => String c h :: r
         | [] => [String c EmptyString]
         end.
Proof. reflexivity. Qed.

Lemma split_not_nil (sep : ascii) (s : string) : split sep s <> [].
Proof.
  induction s as [|c t IH]; [discriminate|].
  rewrite split_cons. destruct (Ascii.eqb c sep); [discriminate|].
  destruct (split sep t); [congruence | discriminate].
Qed.

(** A text without the separator is the one part. *)
Lemma split_free (sep : ascii) (s : string) :
  Js.includes s (String sep EmptyString) = false -> split sep s = [s].
Proof.
  induction s as [|c t IH]; [reflexivity|].
  rewrite includes_char, orb_false_iff, split_cons. intros [Hc Ht].
  rewrite Ascii.eqb_sym in Hc. rewrite Hc, (IH Ht). reflexivity.
Qed.

(** The first part ends at the first separator. *)
Lemma split_append (sep : ascii) (a b : string) :
  Js.includes a (String sep EmptyString) = false ->
  split sep (a ++ String sep b) = a :: split sep b.
Proof.
  induction a as [|c a IH]; intros Ha.
  - cbn [append]. rewrite split_cons, Ascii.eqb_refl. reflexivity.
  - rewrite includes_char, orb_false_iff in Ha. destruct Ha as [Hc Ha].
    change (String c a ++ String sep b) with (String c (a ++ String sep b)).
    rewrite split_cons, Ascii.eqb_sym, Hc, (IH Ha). reflexivity.
Qed.

(** No part holds the separator. *)
Lemma split_parts_free (sep : ascii) (s : string) :
  Forall (fun x => Js.includes x (String sep EmptyString) = false)
    (split sep s).
Proof.
  induction s as [|c t IH]; [repeat constructor|].
  rewrite split_cons. destruct (Ascii.eqb c sep) eqn:Hc.
  - constructor; [reflexivity | exact IH].
  - destruct (split sep t) as [|h r].
    + repeat constructor.
      rewrite includes_char, Ascii.eqb_sym, Hc. reflexivity.
    + inversion IH; subst. constructor; [|assumption].
      rewrite includes_char, Ascii.eqb_sym, Hc. assumption.
Qed.

(** A text with the separator has a second part. *)
Lemma split_second (sep : ascii) (s : string) :
  Js.includes s (String sep EmptyString) = true ->
  exists a b r, split sep s = a :: b :: r.
Proof.
  induction s as [|c t IH]; [discriminate|].
  rewrite includes_char, split_cons, Ascii.eqb_sym. intros H.
  destruct (Ascii.eqb c sep) eqn:Hc.
  - pose proof (split_not_nil sep t) as Hn.
    destruct (split sep t) as [|b r]; [congruence | eauto].
  - cbn in H. destruct (IH H) as (a & b & r & ->). eauto.
Qed.

Lemma join_cons (sep x y : string) (r : list string) :
  join sep (x :: y :: r) = x ++ sep ++ join sep (y :: r).
Proof. reflexivity. Qed.

(** The joined text starts with the first part. *)
Lemma join_starts (sep x : string) (r : list string) :
  Js.startsWith (join sep (x :: r)) x = true.
Proof.
  apply startsWith_iff. destruct r as [|y r].
  - exists EmptyString. cbn. induction x; cbn; congruence.
  - rewrite join_cons. eauto.
Qed.

Lemma includes_self (s : string) : Js.includes s s = true.
Proof.
  apply includes_iff. exists EmptyString, EmptyString. cbn.
  induction s; cbn; congruence.
Qed.

Lemma includes_append_l (a b p : string) :
  Js.includes a p = true -> Js.includes (a ++ b) p = true.
Proof.
  rewrite !includes_iff. intros (u & v & ->). exists u, (v ++ b).
  induction u as [|c u IH]; cbn.
  - induction p as [|c p IHp]; cbn; [reflexivity | congruence].
  - congruence.
Qed.

(** The joined text includes each part. *)
Lemma join_includes (sep x : string) (parts : list string) :
  In x parts -> Js.includes (join sep parts) x = true.
Proof.
  induction parts as [|y r IH]; [contradiction|].
  intros Hin. destruct r as [|z r].
  - destruct Hin as [-> | []]. apply includes_self.
  - rewrite join_cons. destruct Hin as [-> | Hin].
    + apply includes_append_l, includes_self.
    + do 2 apply includes_append_r. apply IH, Hin.
Qed.

Lemma count_replace (a b : ascii) (s : string) :
  a <> b ->
  count_char a (replace a b s) = Nat.pred (count_char a s).
Proof.
  intros Hab. induction s as [|c t IH]; [reflexivity|].
  cbn [replace]. destruct (Ascii.eqb c a) eqn:Hc.
  - apply Ascii.eqb_eq in Hc. subst c. cbn [count_char].
    rewrite Ascii.eqb_refl.
    destruct (Ascii.eqb b a) eqn:Hb;
      [apply Ascii.eqb_eq in Hb; congruence | reflexivity].
  - cbn [count_char]. rewrite Hc. exact IH.
Qed.

Lemma length_replace (a b : ascii) (s : string) :
  String.length (replace a b s) = String.length s.
Proof.
  induction s as [|c t IH]; [reflexivity|].
  cbn [replace]. destruct (Ascii.eqb c a); cbn; congruence.
Qed.

End JsLibFacts.
(* ================================================================== *)
(** * Properties of the utilities *)

Import JsLib JsLibFacts.

(** X8.  [clamp] yields a value of the range when the range is not
    empty, leaves a value of the range as it is, and is idempotent; for
    an empty range ([max < min]) it yields [min]. *)
Theorem clamp_in_range (v lo hi : Z) :
  (lo <= hi ->
   lo <= Utils.clamp v lo hi <= hi
   /\ (lo <= v <= hi -> Utils.clamp v lo hi = v)
   /\ Utils.clamp (Utils.clamp v lo hi) lo hi = Utils.clamp v lo hi)
  /\ (hi < lo -> Utils.clamp v lo hi = lo).
Proof. unfold Utils.clamp. lia. Qed.

Lemma string_append_assoc (a b c : string) :
  (a ++ b) ++ c = a ++ b ++ c.
Proof. induction a as [|x a IH]; cbn; congruence. Qed.

(** A text that includes [a ++ b] includes [b]. *)
Lemma includes_suffix (s a b : string) :
  Js.includes s (a ++ b) = true -> Js.includes s b = true.
Proof.
  rewrite !includes_iff. intros (u & v & ->).
  exists (u ++ a), v. rewrite !string_append_assoc. reflexivity.
Qed.

(** X9.  [parseCameraDirection] sets a roll only together with a yaw (a
    "tilt left" is also a "left"), and what it sets lies within 45
    degrees for yaw and pitch and 15 for roll, so within the ranges of
    the camera params. *)
Theorem direction_values (direction : string) :
  let d := Utils.parseCameraDirection direction in
  (Utils.roll d <> None -> Utils.yaw d <> None)
  /\ (forall v, Utils.yaw d = Some v -> -45 <= v <= 45 /\ v <> 0)
  /\ (forall v, Utils.pitch d = Some v -> -45 <= v <= 45 /\ v <> 0)
  /\ (forall v, Utils.roll d = Some v -> v = -15 \/ v = 15).
Proof.
  cbv zeta. unfold Utils.parseCameraDirection. cbn.
  set (lo := Js.toLowerCase direction).
  split; [| split; [| split]].
  - destruct (Js.includes lo "left") eqn:Hl; [discriminate|].
    destruct (Js.includes lo "right") eqn:Hr; [discriminate|].
    destruct (Js.includes lo "tilt left") eqn:H1.
    { apply (includes_suffix lo "tilt " "left") in H1. congruence. }
    destruct (Js.includes lo "dutch left") eqn:H2.
    { apply (includes_suffix lo "dutch " "left") in H2. congruence. }
    destruct (Js.includes lo "tilt right") eqn:H3.
    { apply (includes_suffix lo "tilt " "right") in H3. congruence. }
    destruct (Js.includes lo "dutch right") eqn:H4.
    { apply (includes_suffix lo "dutch " "right") in H4. congruence. }
    cbn. auto.
  - intros v. split_ifs; intros [= <-]; lia.
  - intros v. split_ifs; intros [= <-]; lia.
  - intros v. split_ifs; intros [= <-]; auto.
Qed.

(** X10.  For a message that does not say "tilt" or "copyright" and not
    both "left" and "right", the resolver turns the camera by the yaw
    that [parseCameraDirection] reads from the message, clamped with
    [clamp] to [-180, 180]; where [parseCameraDirection] reads no yaw,
    the resolver keeps the yaw. *)
Theorem resolver_turn_is_clamped_direction
  (m : string) (p : FIBOParams) (h : bool) :
  Js.includes (Js.toLowerCase m) "tilt" = false ->
  Js.includes (Js.toLowerCase m) "copyright" = false ->
  Js.includes (Js.toLowerCase m) "left"
  && Js.includes (Js.toLowerCase m) "right" = false ->
  -180 <= yaw (camera p) <= 180 ->
  yaw (camera (params (mockAgentResponse m p h)))
  = match Utils.yaw (Utils.parseCameraDirection m) with
    | Some d => Utils.clamp (yaw (camera p) + d) (-180) 180
    | None => yaw (camera p)
    end.
Proof.
  intros Ht Hc Hlr Hy. rewrite mock_camera.
  unfold parse_camera, zoom_out, zoom_in, turn_right, turn_left,
    Utils.parseCameraDirection, Utils.clamp.
  cbn [Utils.yaw]. rewrite Ht, Hc.
  destruct (Js.includes (Js.toLowerCase m) "left"),
    (Js.includes (Js.toLowerCase m) "right"); try discriminate Hlr;
    cbn; split_ifs; cbn; lia.
Qed.

Lemma resolver_turn_is_clamped_direction_witness :
  yaw (camera (params (mockAgentResponse "Rotate hard RIGHT"
                         (set_yaw 170 DEFAULT_FIBO_PARAMS) true))) = 180.
Proof.
  rewrite (resolver_turn_is_clamped_direction "Rotate hard RIGHT"
             (set_yaw 170 DEFAULT_FIBO_PARAMS) true);
    vm_compute; try reflexivity; split; discriminate.
Defined.
(* ================================================================== *)
(** * Properties of the Bria client *)

(** X11.  [describeCameraAngle] says "straight on" exactly when pitch
    and yaw are within 10 degrees and the roll within 5. *)
Theorem straight_on_iff_small_angles (c : CameraParams) :
  Bria.describeCameraAngle c = "straight on"
  <-> Z.abs (pitch c) <= 10 /\ Z.abs (yaw c) <= 10 /\ Z.abs (roll c) <= 5.
Proof.
  unfold Bria.describeCameraAngle, push_if.
  destruct (Z.gtb_spec (Z.abs (pitch c)) 10),
    (Z.gtb_spec (Z.abs (yaw c)) 10), (Z.gtb_spec (Z.abs (roll c)) 5);
    destruct (pitch c >? 0), (yaw c >? 0); cbn;
    (split; [try discriminate; intros _; lia | intros; try lia; reflexivity]).
Qed.

(** X12.  In the structured prompt the depth of field and the lens fit
    together: the depth of field is "shallow" exactly for a field of
    view below 30, and then the lens is the 135mm telephoto or the 85mm
    portrait lens; a field of view of 70 or more gives the 24mm
    ultra-wide lens. *)
Theorem lens_fits_depth_of_field (p : FIBOParams) (d : option string) :
  let ph :=
    Structured.photographic_characteristics
      (Bria.paramsToStructuredPrompt p d) in
  (Structured.depth_of_field ph = "shallow" <-> fov (camera p) < 30)
  /\ (Structured.depth_of_field ph = "shallow" ->
      Structured.lens_focal_length ph = "135mm telephoto"
      \/ Structured.lens_focal_length ph = "85mm portrait")
  /\ (Structured.lens_focal_length ph = "24mm ultra-wide"
      <-> 70 <= fov (camera p)).
Proof.
  cbv zeta. cbn. unfold Bria.fovToFocalLength.
  destruct (Z.ltb_spec (fov (camera p)) 30),
    (Z.ltb_spec (fov (camera p)) 20), (Z.ltb_spec (fov (camera p)) 35),
    (Z.ltb_spec (fov (camera p)) 50), (Z.ltb_spec (fov (camera p)) 70);
    try lia;
    (split; [| split]);
    (split || idtac); intros; try lia; try discriminate; auto.
Qed.

(** X13.  The structured prompt replaces one underscore of the
    composition only: the text keeps its length and has one underscore
    less, so a composition with two underscores, as rule_of_thirds,
    keeps one. *)
Theorem composition_loses_one_underscore (p : FIBOParams) (d : option string) :
  let c :=
    Structured.composition
      (Structured.aesthetics (Bria.paramsToStructuredPrompt p d)) in
  String.length c = String.length (composition p)
  /\ count_char "_" c = Nat.pred (count_char "_" (composition p))
  /\ (composition p = "rule_of_thirds" -> c = "rule of_thirds").
Proof.
  cbv zeta. cbn. repeat split.
  - apply length_replace.
  - apply count_replace. discriminate.
  - intros ->. reflexivity.
Qed.

Lemma table_get_lighting (l : string) :
  In l lighting_presets ->
  exists v w,
    table_get Bria.lightingMap l = Some v /\ Js.truthy_string v = true
    /\ table_get Generate.lightingMap l = Some w
    /\ Js.truthy_string w = true.
Proof.
  unfold lighting_presets. cbn.
  intros [<-|[<-|[<-|[<-|[<-|[<-|[<-|[]]]]]]]];
    eexists; eexists; repeat split; reflexivity.
Qed.

Lemma truthy_join (sep x : string) (r : list string) :
  Js.truthy_string x = true -> Js.truthy_string (join sep (x :: r)) = true.
Proof.
  intros Hx. pose proof (join_starts sep x r) as H.
  apply startsWith_iff in H as [b ->].
  destruct x; [discriminate | reflexivity].
Qed.

Lemma truthy_preset (l : string) :
  In l lighting_presets -> Js.truthy_string l = true.
Proof.
  unfold lighting_presets. cbn.
  intros [<-|[<-|[<-|[<-|[<-|[<-|[<-|[]]]]]]]]; reflexivity.
Qed.

(** X14.  For a lighting of the schema and a prompt that is not empty,
    the text that [buildRichPrompt] builds starts with that prompt and
    includes the lighting description that the structured prompt has;
    so it is never the fallback "A high quality image". *)
Theorem rich_prompt_has_prompt_and_lighting
  (p : FIBOParams) (u : string) (d : option string) :
  Js.truthy_string u = true ->
  In (lighting p) lighting_presets ->
  Js.startsWith (Bria.buildRichPrompt p (Some u)) u = true
  /\ Js.includes (Bria.buildRichPrompt p (Some u))
       (Structured.type
          (Structured.lighting (Bria.paramsToStructuredPrompt p d))) = true.
Proof.
  intros Hu Hl.
  destruct (table_get_lighting _ Hl) as (v & w & Hv & Htv & _ & _).
  pose proof (truthy_preset _ Hl) as Htl.
  assert (Hparts : exists r,
    Bria.buildRichPrompt p (Some u) = join ". " (u :: r) /\ In v r).
  { unfold Bria.buildRichPrompt, Bria.push_entry, push_if.
    rewrite Hu, Hv, Htv, Htl.
    destruct (subject_description p) as [s0|];
      [destruct (Js.truthy_string s0)|];
      (destruct (Js.truthy_string (composition p));
       [destruct (table_get Bria.compositionMap (composition p)) as [cv|];
        [destruct (Js.truthy_string cv)|]|]);
      (destruct (color_palette p) as [cp|];
       [destruct (Js.truthy_string cp)|]);
      destruct (String.eqb (realism_level p) "high"),
        (String.eqb (realism_level p) "stylized");
      cbn [app]; rewrite (truthy_join _ _ _ Hu);
      eexists; (split; [reflexivity |]); cbn; auto 10. }
  destruct Hparts as (r & -> & Hin).
  split; [apply join_starts |].
  change (Structured.type
            (Structured.lighting (Bria.paramsToStructuredPrompt p d)))
    with (Bria.mapLightingType (lighting p)).
  unfold Bria.mapLightingType, or_text. rewrite Hv, Htv.
  apply join_includes. right. exact Hin.
Qed.

Lemma rich_prompt_has_prompt_and_lighting_witness :
  Js.startsWith
    (Bria.buildRichPrompt DEFAULT_FIBO_PARAMS (Some "add a red hat"))
    "add a red hat" = true.
Proof.
  apply (rich_prompt_has_prompt_and_lighting DEFAULT_FIBO_PARAMS
           "add a red hat" None); [reflexivity |].
  vm_compute. auto.
Defined.
(** *** Data URLs *)

Lemma includes_char_app (c : ascii) (a b : string) :
  Js.includes (a ++ b) (String c EmptyString)
  = Js.includes a (String c EmptyString)
    || Js.includes b (String c EmptyString).
Proof.
  induction a as [|x a IH]; [reflexivity|].
  change (String x a ++ b) with (String x (a ++ b)).
  rewrite !includes_char, IH, orb_assoc. reflexivity.
Qed.

Lemma data_url_split (mt payload : string) :
  comma_free mt -> comma_free payload ->
  split "," (data_url mt payload) = ["data:" ++ mt; payload].
Proof.
  unfold comma_free, data_url. intros Hm Hp.
  change ("data:" ++ mt ++ "," ++ payload)
    with ("data:" ++ mt ++ String "," payload).
  rewrite <- string_append_assoc, split_append, (split_free _ _ Hp);
    [reflexivity |].
  rewrite includes_char_app, Hm. reflexivity.
Qed.

Lemma data_url_has_comma (mt payload : string) :
  Js.includes (data_url mt payload) "," = true.
Proof.
  unfold data_url.
  change ("data:" ++ mt ++ "," ++ payload)
    with ("data:" ++ mt ++ String "," payload).
  rewrite <- string_append_assoc, includes_char_app, includes_char.
  apply orb_true_r.
Qed.

(** X15.  What the client sends to Bria as image or mask never holds a
    comma, so never a data-URL prefix: a text without comma goes as it
    is, and of a data URL the payload goes. *)
Theorem raw_base64_strips_the_prefix (x mt payload : string) :
  comma_free (Bria.rawBase64 x)
  /\ (comma_free x -> Bria.rawBase64 x = x)
  /\ (comma_free mt -> comma_free payload ->
      Bria.rawBase64 (data_url mt payload) = payload).
Proof.
  unfold Bria.rawBase64. repeat split.
  - unfold comma_free. destruct (Js.includes x ",") eqn:Hx; [|exact Hx].
    destruct (split_second _ _ Hx) as (a & b & r & Hs).
    pose proof (split_parts_free "," x) as Hf. rewrite Hs in Hf |- *.
    inversion Hf as [|? ? _ Hf']. inversion Hf'. assumption.
  - unfold comma_free. intros ->. reflexivity.
  - intros Hm Hp.
    rewrite data_url_has_comma, (data_url_split _ _ Hm Hp). reflexivity.
Qed.

Lemma raw_base64_strips_the_prefix_witness :
  Bria.rawBase64 (data_url "image/png;base64" "iVBORw0KGgo=")
  = "iVBORw0KGgo=".
Proof.
  apply (raw_base64_strips_the_prefix EmptyString "image/png;base64"
           "iVBORw0KGgo="); reflexivity.
Defined.

(* ================================================================== *)
(** * Properties of the generation route *)

(** X16.  [extractBase64] leaves a text that does not start with
    "data:" as it is, yields the payload of a data URL when that is not
    empty, and yields the whole input when the payload is empty, where
    the client's own stripping yields the empty text; so it never turns
    an input that is not empty into the empty text. *)
Theorem extract_base64_cases (input mt payload : string) :
  (Js.startsWith input "data:" = false ->
   Generate.extractBase64 input = input)
  /\ (comma_free mt -> comma_free payload ->
      Js.truthy_string payload = true ->
      Generate.extractBase64 (data_url mt payload) = payload)
  /\ (comma_free mt ->
      Generate.extractBase64 (data_url mt EmptyString)
      = data_url mt EmptyString
      /\ Bria.rawBase64 (data_url mt EmptyString) = EmptyString)
  /\ (Js.truthy_string input = true ->
      Js.truthy_string (Generate.extractBase64 input) = true).
Proof.
  unfold Generate.extractBase64. repeat split.
  - intros ->. reflexivity.
  - intros Hm Hp Ht.
    replace (Js.startsWith (data_url mt payload) "data:") with true
      by (symmetry; apply startsWith_iff; unfold data_url; eauto).
    rewrite (data_url_split _ _ Hm Hp). cbn. rewrite Ht. reflexivity.
  - replace (Js.startsWith (data_url mt EmptyString) "data:") with true
      by (symmetry; apply startsWith_iff; unfold data_url; eauto).
    match goal with
    | Hm : comma_free mt |- _ =>
        rewrite (data_url_split mt EmptyString Hm eq_refl)
    end.
    reflexivity.
  - unfold Bria.rawBase64.
    match goal with
    | Hm : comma_free mt |- _ =>
        rewrite data_url_has_comma, (data_url_split mt EmptyString Hm eq_refl)
    end.
    reflexivity.
  - intros Ht. destruct (Js.startsWith input "data:"); [|exact Ht].
    unfold or_text.
    destruct (nth_error (split "," input) 1) as [y|]; [|exact Ht].
    destruct (Js.truthy_string y) eqn:Hy; [exact Hy | exact Ht].
Qed.

Lemma extract_base64_cases_witness :
  Generate.extractBase64 (data_url "image/png;base64" "iVBORw0KGgo=")
  = "iVBORw0KGgo=".
Proof.
  apply (extract_base64_cases EmptyString "image/png;base64"
           "iVBORw0KGgo="); reflexivity.
Defined.

(** X17.  With a token and an image, the route sends to gen_fill exactly
    when a mask that is not empty comes with the request, whatever the
    operation: an inpaint operation, which is rejected without a mask,
    goes to gen_fill, and so does a style_transfer that comes with a
    mask. *)
Theorem routing_follows_the_mask
  (img : string) (body : Generate.GenerateRequestBody) (p : FIBOParams)
  (token : option string) :
  Js.truthy token = true ->
  Js.truthy_string img = true ->
  Generate.plan img body p token
  = Bria.Send
      (let text :=
         Bria.buildRichPrompt p
           (Some (Generate.effectivePrompt (Generate.prompt body)
                    (Generate.operation body) p)) in
       if Js.truthy (Generate.mask body)
       then Bria.GenFill (Bria.rawBase64 img)
              (Bria.rawBase64 (or_text (Generate.mask body) EmptyString))
              text
       else Bria.Generate (Some (Bria.rawBase64 img)) text).
Proof.
  intros Ht Hi.
  unfold Generate.plan, Bria.generateImage, Bria.generateWithGenFill,
    Bria.generateStandard.
  rewrite Ht, Hi. cbn [negb andb].
  destruct (Generate.mask body) as [m|]; [|reflexivity].
  cbn [Js.truthy or_text].
  destruct (Js.truthy_string m); reflexivity.
Qed.

Lemma routing_follows_the_mask_witness :
  exists text,
    Generate.plan "aGVsbG8="
      (Generate.mkBody (Some "aGVsbG8=") (Some "bWFzaw==")
         (Some DEFAULT_FIBO_PARAMS) (Some "make it neon")
         (Some "style_transfer"))
      DEFAULT_FIBO_PARAMS (Some "token")
    = Bria.Send (Bria.GenFill "aGVsbG8=" "bWFzaw==" text).
Proof.
  eexists.
  rewrite (routing_follows_the_mask "aGVsbG8=" _ DEFAULT_FIBO_PARAMS
             (Some "token") eq_refl eq_refl).
  reflexivity.
Defined.

Lemma truthy_buildPromptFromParams (p : FIBOParams) :
  Js.truthy_string (Generate.buildPromptFromParams p) = true.
Proof.
  unfold Generate.buildPromptFromParams.
  match goal with
  | |- context [if Js.truthy_string ?j then _ else _] =>
      destruct (Js.truthy_string j) eqn:E
  end; [exact E | reflexivity].
Qed.

(** X18.  The prompt that the route hands to [generateImage] is never
    empty: it is the prompt of the request when that is not empty, and
    else a fixed text for inpaint_remove and the text built from the
    params for the other operations. *)
Theorem effective_prompt_never_empty
  (prompt operation : option string) (p : FIBOParams) :
  Js.truthy_string (Generate.effectivePrompt prompt operation p) = true
  /\ (Js.truthy prompt = true ->
      Some (Generate.effectivePrompt prompt operation p) = prompt)
  /\ (Js.truthy prompt = false ->
      Generate.effectivePrompt prompt operation p
      = if match operation with
           | Some o => String.eqb o "inpaint_remove"
           | None => false
           end
        then "empty, background continues naturally"
        else Generate.buildPromptFromParams p).
Proof.
  unfold Generate.effectivePrompt, or_text.
  pose proof (truthy_buildPromptFromParams p) as Hb.
  destruct prompt as [u|]; cbn [Js.truthy];
    [destruct (Js.truthy_string u) eqn:Hu|];
    destruct operation as [o|];
    try destruct (String.eqb o "inpaint_remove");
    cbn; rewrite ?Hu; repeat split; auto; discriminate.
Qed.
(** X19.  The two routes agree on the mask: when the result of the
    rule-based resolver is sent on to the generation route with an image,
    the params, the operation and a mask exactly if the resolver saw
    one, the route answers with its draw-first error exactly when the
    resolver asked for a mask. *)
Theorem generation_gate_agrees_with_resolver
  (Result : Type) (run : Bria.Plan -> outcome Result)
  (m img : string) (p : FIBOParams) (h : bool) (mask token : option string) :
  Js.truthy_string img = true ->
  Js.truthy mask = h ->
  let r := mockAgentResponse m p h in
  let body :=
    Generate.mkBody (Some img) mask (Some (params r)) (Some (prompt r))
      (Some (op_name (operation r))) in
  (exists e,
     snd (snd (Generate.POST Result run (Returned body) token))
     = Generate.Failure e true)
  <-> needsMask r = true.
Proof.
  intros Hi Hm. cbv zeta.
  rewrite mock_needsMask.
  unfold Generate.POST. cbn [Generate.image Generate.params Generate.mask
    Generate.operation Generate.prompt].
  destruct img as [|c img]; [discriminate Hi|].
  rewrite Hm.
  assert (Hg : Generate.isInpaintOperation
                 (Some (op_name (operation (mockAgentResponse m p h))))
               = array_includes mask_operations
                   (op_name (operation (mockAgentResponse m p h)))).
  { destruct (operation (mockAgentResponse m p h)); reflexivity. }
  rewrite Hg.
  destruct (array_includes mask_operations
              (op_name (operation (mockAgentResponse m p h))) && negb h).
  - cbn. split; [reflexivity | eauto].
  - split; [| discriminate].
    intros [e He]. revert He.
    match goal with
    | |- context [run ?pl] => destruct (run pl)
    end; cbn; discriminate.
Qed.

Lemma generation_gate_agrees_with_resolver_witness :
  exists e,
    snd (snd (Generate.POST Z (fun _ => Returned 0)
                (Returned
                   (Generate.mkBody (Some "aGVsbG8=") None
                      (Some (params (mockAgentResponse "erase the sign"
                                       DEFAULT_FIBO_PARAMS false)))
                      (Some (prompt (mockAgentResponse "erase the sign"
                                       DEFAULT_FIBO_PARAMS false)))
                      (Some (op_name
                               (operation
                                  (mockAgentResponse "erase the sign"
                                     DEFAULT_FIBO_PARAMS false))))))
                None))
    = Generate.Failure e true.
Proof.
  apply (generation_gate_agrees_with_resolver Z (fun _ => Returned 0)
           "erase the sign" "aGVsbG8=" DEFAULT_FIBO_PARAMS false None None);
    reflexivity.
Defined.

(* ================================================================== *)
(** * Properties of the studio page *)

(** X20.  A message that the chat panel hands on is trimmed and not
    empty, so the agent route never answers it with status 400; without
    a key the answer is the result of the rule-based resolver for the
    params of the page and the mask flag [!!maskData]. *)
Theorem chat_message_reaches_the_resolver
  (service : FIBOParams -> bool -> string -> outcome json)
  (st : Studio.State.t) (input msg : string) (isProcessing disabled : bool)
  (key : option string) :
  Studio.handleSubmit input isProcessing disabled = Some msg ->
  Js.truthy (Studio.imageToEdit st) = true ->
  exists request,
    Studio.handleSendMessage st msg = Studio.ToAgent request
    /\ status (snd (POST service (Returned request) key)) <> 400
    /\ (Js.truthy key = false ->
        snd (POST service (Returned request) key)
        = mkHttp 200
            (MockBody
               (mockAgentResponse (Js.trim input) (Studio.State.params st)
                  (Js.truthy (Studio.State.maskData st))))).
Proof.
  unfold Studio.handleSubmit, Studio.handleSendMessage.
  intros Hs Hi. rewrite Hi. cbn [negb].
  destruct (Js.truthy_string (Js.trim input) && negb isProcessing
            && negb disabled) eqn:Hc; [|discriminate].
  injection Hs as <-.
  apply andb_true_iff in Hc as [Hc _]. apply andb_true_iff in Hc as [Hc _].
  eexists. split; [reflexivity|].
  unfold POST, callOpenAI. cbn [userMessage currentParams hasMask].
  destruct (Js.trim input) as [|c t]; [discriminate Hc|].
  destruct (Js.truthy key).
  - split; [| discriminate].
    destruct (service _ _ _) as [parsed|e]; [|cbn; discriminate].
    destruct (validate parsed _); cbn; discriminate.
  - split; [cbn; discriminate | reflexivity].
Qed.

Lemma chat_message_reaches_the_resolver_witness :
  exists request,
    Studio.handleSendMessage
      (Studio.State.mk (Some "data:image/png;base64,aGVsbG8=") None None
         DEFAULT_FIBO_PARAMS) "make it warm"
    = Studio.ToAgent request
    /\ status (snd (POST service_down (Returned request) None)) <> 400.
Proof.
  destruct (chat_message_reaches_the_resolver service_down
              (Studio.State.mk (Some "data:image/png;base64,aGVsbG8=") None
                 None DEFAULT_FIBO_PARAMS)
              "  make it warm " "make it warm" false false None
              eq_refl eq_refl) as (rq & H1 & H2 & _).
  exists rq. split; assumption.
Defined.

(** X21.  The chat line that the page shows for an answer does not
    depend on the response text of the answer whenever the operation is
    one of the six: the page shows its own line for the operation, or
    its own draw-first line. *)
Theorem feedback_ignores_the_response
  (o : OperationType) (response1 response2 : option string) (mask : bool) :
  Studio.feedback (Some (op_name o)) response1 mask
  = Studio.feedback (Some (op_name o)) response2 mask.
Proof. destruct o, mask; reflexivity. Qed.

Lemma needsMaskForOp_pending (r : AgentResponse) :
  Studio.needsMaskForOp (Some (Studio.pending_of r))
  = array_includes mask_operations (op_name (operation r)).
Proof. destruct r as [o ? ? ? ?]. destruct o; reflexivity. Qed.

(** X22.  With the mask state unchanged since the message was sent, a
    click on Generate asks for a mask exactly when the resolver did:
    the page's own check of the pending operation agrees with the
    [needsMask] of the answer. *)
Theorem page_gate_agrees_with_resolver (st : Studio.State.t) (m : string) :
  Js.truthy (Studio.imageToEdit st) = true ->
  let r :=
    mockAgentResponse m (Studio.State.params st)
      (Js.truthy (Studio.State.maskData st)) in
  Studio.handleGenerate st (Some (Studio.pending_of r)) = Studio.AskForMask
  <-> needsMask r = true.
Proof.
  intros Hi. cbv zeta. unfold Studio.handleGenerate.
  rewrite Hi, needsMaskForOp_pending, mock_needsMask. cbn [negb].
  destruct (array_includes mask_operations _ && negb _);
    split; try reflexivity; discriminate.
Qed.

Lemma page_gate_agrees_with_resolver_witness :
  Studio.handleGenerate
    (Studio.State.mk (Some "data:image/png;base64,aGVsbG8=") None None
       DEFAULT_FIBO_PARAMS)
    (Some (Studio.pending_of
             (mockAgentResponse "swap the door with a window"
                DEFAULT_FIBO_PARAMS false)))
  = Studio.AskForMask.
Proof.
  apply (page_gate_agrees_with_resolver
           (Studio.State.mk (Some "data:image/png;base64,aGVsbG8=") None
              None DEFAULT_FIBO_PARAMS) "swap the door with a window");
    reflexivity.
Defined.

(** X23.  A request that the page sends to the generation route passes
    the checks of the route: whatever the pending operation, the answer
    is never one of the three 400 errors. *)
Theorem page_request_passes_the_checks
  (Result : Type) (run : Bria.Plan -> outcome Result)
  (st : Studio.State.t) (pending : option Studio.Pending.t)
  (body : Generate.GenerateRequestBody) (token : option string) :
  Studio.handleGenerate st pending = Studio.ToGenerate body ->
  fst (snd (Generate.POST Result run (Returned body) token)) <> 400.
Proof.
  unfold Studio.handleGenerate.
  destruct (Js.truthy (Studio.imageToEdit st)) eqn:Hi; [|discriminate].
  cbn [negb].
  destruct (Studio.needsMaskForOp pending
            && negb (Js.truthy (Studio.State.maskData st))) eqn:Hg;
    [discriminate|].
  intros [= <-]. unfold Generate.POST.
  cbn [Generate.image Generate.params Generate.mask Generate.operation].
  destruct (Studio.imageToEdit st) as [[|c img]|]; try discriminate Hi.
  assert (Hsame :
    Generate.isInpaintOperation
      match pending with
      | Some p => Studio.Pending.operation p
      | None => None
      end
    = Studio.needsMaskForOp pending).
  { destruct pending as [[o ? ?]|]; reflexivity. }
  rewrite Hsame, Hg.
  match goal with
  | |- context [run ?pl] => destruct (run pl)
  end; cbn; discriminate.
Qed.

Lemma page_request_passes_the_checks_witness :
  exists body,
    Studio.handleGenerate
      (Studio.State.mk None (Some "data:image/png;base64,aGVsbG8=") None
         DEFAULT_FIBO_PARAMS) None
    = Studio.ToGenerate body
    /\ fst (snd (Generate.POST Z (fun _ => Returned 0) (Returned body)
                   None)) <> 400.
Proof.
  eexists. split; [reflexivity |].
  apply (page_request_passes_the_checks Z (fun _ => Returned 0)
           (Studio.State.mk None (Some "data:image/png;base64,aGVsbG8=")
              None DEFAULT_FIBO_PARAMS) None).
  reflexivity.
Defined.

(* ================================================================== *)
(** * Further properties of the agent route *)

(** X24.  The key alone selects the resolver.  Without a key a request
    with a message is answered with status 200 and the result of the
    rule-based resolver, whatever the service; with a key the answer
    never carries a result of the rule-based resolver, also when the
    service fails. *)
Theorem key_selects_the_resolver
  (service : FIBOParams -> bool -> string -> outcome json)
  (req : AgentRequest) (key : option string) (c : ascii) (msg : string) :
  userMessage req = Some (String c msg) ->
  (Js.truthy key = false ->
   snd (POST service (Returned req) key)
   = mkHttp 200
       (MockBody
          (mockAgentResponse (String c msg) (currentParams req)
             (hasMask req))))
  /\ (Js.truthy key = true ->
      forall r, body (snd (POST service (Returned req) key)) <> MockBody r).
Proof.
  intros Hu. unfold POST, callOpenAI. rewrite Hu.
  split; intros ->; [reflexivity|].
  intros r.
  destruct (service _ _ _) as [parsed|e]; [|cbn; discriminate].
  destruct (validate parsed _); cbn; discriminate.
Qed.

Lemma key_selects_the_resolver_witness :
  snd (POST service_down
         (Returned (mkRequest (Some "make it warm") DEFAULT_FIBO_PARAMS
                      false)) None)
  = mkHttp 200
      (MockBody (mockAgentResponse "make it warm" DEFAULT_FIBO_PARAMS false)).
Proof.
  apply (key_selects_the_resolver service_down
           (mkRequest (Some "make it warm") DEFAULT_FIBO_PARAMS false)
           None "m"%char "ake it warm"); reflexivity.
Defined.
